(** * Atlas / Hermes serving code: prompt assembly and structured extraction

    A shallow embedding of [src/atlas/serve.py] and [src/atlas/hermes.py].

    Conventions.
    - A Python [str] is a Rocq [string] holding its UTF-8 encoding.  Every
      character the code inspects (brackets, braces, the ChatML markers) is
      ASCII, and no byte of a multi-byte UTF-8 sequence is below 128, so
      scanning bytes and scanning code points select the same spans.
    - A Python value that travels through JSON is a [pyval]; a [dict] is a
      [gmap] keyed by strings.
    - The two external collaborators, the [json] decoder and the vLLM
      engine, are interfaces ([JsonDecoder], [InferenceEngine]); the code is
      embedded over them.  Exceptions are values of [exn]; a call to the
      engine is recorded in the world's call log. *)

From Stdlib Require Import Floats.PrimFloat Ascii String ZArith Lia.
From stdpp Require Import gmap strings list fin_maps pretty.

Set Warnings "-register-all,-inexact-float".

(* ------------------------------------------------------------------ *)
(** ** Characters and strings *)

Definition nl : string := String "010"%char "".
Definition dq : string := String "034"%char "".

Definition lbracket : ascii := "["%char.
Definition rbracket : ascii := "]"%char.
Definition lbrace : ascii := "{"%char.
Definition rbrace : ascii := "}"%char.
Definition backslash : ascii := "\"%char.

(** [s[0:n]] *)
Fixpoint str_take (n : nat) (s : string) : string :=
  match n, s with
  | S n', String c s' => String c (str_take n' s')
  | _, _ => ""
  end.

(** [s[n:]] *)
Fixpoint str_drop (n : nat) (s : string) : string :=
  match n, s with
  | S n', String _ s' => str_drop n' s'
  | _, _ => s
  end.

(** [s[i:j+1]], the slice with both ends included. *)
Definition str_slice (i j : nat) (s : string) : string :=
  str_take (S j - i) (str_drop i s).


(** [s.find(c)]: index of the first occurrence. *)
Fixpoint str_find (c : ascii) (s : string) : option nat :=
  match s with
  | "" => None
  | String a s' => if decide (a = c) then Some 0 else S <$> str_find c s'
  end.

(** [s.rfind(c)]: index of the last occurrence. *)
Fixpoint str_rfind (c : ascii) (s : string) : option nat :=
  match s with
  | "" => None
  | String a s' =>
      match str_rfind c s' with
      | Some j => Some (S j)
      | None => if decide (a = c) then Some 0 else None
      end
  end.

(* ------------------------------------------------------------------ *)
(** ** The fragment of Python's [re] the code uses

    Both patterns are sequences of single-character items, each a character
    class with a quantifier.  Matching is the backtracking search of [re]:
    a greedy quantifier first takes as many characters as it can and gives
    them back one at a time; [re.search] tries the start positions from
    left to right and keeps the first that matches. *)

Inductive charclass :=
| Lit (c : ascii)        (* an escaped literal, such as \[ *)
| AnyChar                (* [\s\S] *)
| NotLit (c : ascii).    (* a negated class, such as [^}] *)

Inductive quantifier := Once | Star | Plus.

Definition regex := list (charclass * quantifier).

Definition class_mem (cl : charclass) (a : ascii) : bool :=
  match cl with
  | Lit c => bool_decide (a = c)
  | AnyChar => true
  | NotLit c => negb (bool_decide (a = c))
  end.

(** Greedy repetition of a class, then the continuation [k]. *)
Fixpoint match_star (cl : charclass) (k : string → option nat) (s : string)
  : option nat :=
  match s with
  | String a s' =>
      if class_mem cl a then
        match match_star cl k s' with
        | Some n => Some (S n)
        | None => k s
        end
      else k s
  | "" => k s
  end.

(** [match_at r s]: the length of the match of [r] at the start of [s]. *)
Fixpoint match_at (r : regex) : string → option nat :=
  match r with
  | [] => λ _, Some 0
  | (cl, q) :: r' =>
      let k := match_at r' in
      match q with
      | Once => λ s,
          match s with
          | String a s' => if class_mem cl a then S <$> k s' else None
          | "" => None
          end
      | Star => match_star cl k
      | Plus => λ s,
          match s with
          | String a s' =>
              if class_mem cl a then S <$> match_star cl k s' else None
          | "" => None
          end
      end
  end.

(** A match object: where the match starts and the text it covers. *)
Record Match := { m_start : nat; m_group : string }.

Definition shift_match (m : Match) : Match :=
  {| m_start := S (m_start m); m_group := m_group m |}.

(** [re.search(r, s)] *)
Fixpoint re_search (r : regex) (s : string) : option Match :=
  match match_at r s with
  | Some n => Some {| m_start := 0; m_group := str_take n s |}
  | None =>
      match s with
      | String _ s' => shift_match <$> re_search r s'
      | "" => None
      end
  end.

(** [r'\[[\s\S]*\]'] (hermes.py, line 101) *)
Definition array_re : regex :=
  [(Lit lbracket, Once); (AnyChar, Star); (Lit rbracket, Once)].

(** [r'\{[^}]+\}'] (serve.py, line 241) *)
Definition object_re : regex :=
  [(Lit lbrace, Once); (NotLit rbrace, Plus); (Lit rbrace, Once)].


(* ------------------------------------------------------------------ *)
(** ** Python values, exceptions *)

Inductive pyval :=
| PNone
| PBool (b : bool)
| PInt (z : Z)
| PFloat (x : float)
| PStr (s : string)
| PList (l : list pyval)
| PDict (d : gmap string pyval).

Inductive exn :=
| JSONDecodeError | AttributeError | TypeError | KeyError
| RecursionError | ValueError.

Inductive result (A : Type) :=
| Ok (a : A)
| Raise (e : exn).
Arguments Ok {A} a.
Arguments Raise {A} e.

Definition result_bind {A B} (r : result A) (k : A → result B) : result B :=
  match r with
  | Ok a => k a
  | Raise e => Raise e
  end.

(** A continuation byte of a UTF-8 sequence: 10xxxxxx. *)
Definition is_continuation (a : ascii) : bool :=
  let n := N_of_ascii a in (128 <=? n)%N && (n <? 192)%N.

(** Number of code points of a UTF-8 string. *)
Fixpoint str_len (s : string) : nat :=
  match s with
  | "" => 0
  | String a s' => if is_continuation a then str_len s' else S (str_len s')
  end.

(** [len(v)] *)
Definition py_len (v : pyval) : result Z :=
  match v with
  | PList l => Ok (Z.of_nat (length l))
  | PDict d => Ok (Z.of_nat (size d))
  | PStr s => Ok (Z.of_nat (str_len s))
  | _ => Raise TypeError
  end.

(** [v.get(k, dflt)]; only a dict has the method. *)
Definition py_get (v : pyval) (k : string) (dflt : pyval) : result pyval :=
  match v with
  | PDict d => Ok (default dflt (d !! k))
  | _ => Raise AttributeError
  end.

(** [v[k]] for a string key. *)
Definition py_getitem (v : pyval) (k : string) : result pyval :=
  match v with
  | PDict d =>
      match d !! k with
      | Some x => Ok x
      | None => Raise KeyError
      end
  | _ => Raise TypeError
  end.

(** [a + b], as far as the code uses it: on integers. *)
Definition py_add (a b : pyval) : result pyval :=
  match a, b with
  | PInt x, PInt y => Ok (PInt (x + y))
  | _, _ => Raise TypeError
  end.

(** [sum(vs)]: starts from 0 and adds from the left. *)
Fixpoint py_sum_from (acc : pyval) (vs : list pyval) : result pyval :=
  match vs with
  | [] => Ok acc
  | v :: vs' => result_bind (py_add acc v) (λ acc', py_sum_from acc' vs')
  end.

Definition py_sum (vs : list pyval) : result pyval := py_sum_from (PInt 0) vs.

(** The generator [(f(r) for r in rs)], evaluated as [sum] consumes it. *)
Fixpoint py_gen (f : pyval → result pyval) (rs : list pyval)
  : result (list pyval) :=
  match rs with
  | [] => Ok []
  | r :: rs' =>
      result_bind (f r) (λ v, result_bind (py_gen f rs') (λ vs, Ok (v :: vs)))
  end.

(** [l[-n:]] *)
Definition py_last {A} (n : nat) (l : list A) : list A :=
  drop (length l - n) l.

(* ------------------------------------------------------------------ *)
(** ** [str.strip()]

    The characters Python strips are those with [str.isspace()]: the ASCII
    ones (9-13, 28-32) and U+0085, U+00A0, U+1680, U+2000-U+200A, U+2028,
    U+2029, U+202F, U+205F, U+3000, here by their UTF-8 encodings. *)

Definition is_ascii_space (a : ascii) : bool :=
  let n := N_of_ascii a in
  ((9 <=? n) && (n <=? 13) || (28 <=? n) && (n <=? 32))%N.

Definition is_space2 (a b : ascii) : bool :=
  let '(x, y) := (N_of_ascii a, N_of_ascii b) in
  ((x =? 194) && ((y =? 133) || (y =? 160)))%N.

Definition is_space3 (a b c : ascii) : bool :=
  let '(x, y, z) := (N_of_ascii a, N_of_ascii b, N_of_ascii c) in
  ((x =? 225) && (y =? 154) && (z =? 128)
   || (x =? 226) && (y =? 128)
        && ((128 <=? z) && (z <=? 138) || (z =? 168) || (z =? 169) || (z =? 175))
   || (x =? 226) && (y =? 129) && (z =? 159)
   || (x =? 227) && (y =? 128) && (z =? 128))%N.

(** The rest of [s] after one leading whitespace character, if it has one. *)
Definition space_at_head (s : string) : option string :=
  match s with
  | String a r1 =>
      if is_ascii_space a then Some r1 else
      match r1 with
      | String b r2 =>
          if is_space2 a b then Some r2 else
          match r2 with
          | String c r3 => if is_space3 a b c then Some r3 else None
          | "" => None
          end
      | "" => None
      end
  | "" => None
  end.

(** The same at the end of the string, on the reversed string. *)
Definition space_at_end (rs : string) : option string :=
  match rs with
  | String c r1 =>
      if is_ascii_space c then Some r1 else
      match r1 with
      | String b r2 =>
          if is_space2 b c then Some r2 else
          match r2 with
          | String a r3 => if is_space3 a b c then Some r3 else None
          | "" => None
          end
      | "" => None
      end
  | "" => None
  end.

Fixpoint strip_while (step : string → option string) (fuel : nat) (s : string)
  : string :=
  match fuel with
  | 0 => s
  | S fuel' =>
      match step s with
      | Some s' => strip_while step fuel' s'
      | None => s
      end
  end.

Definition py_lstrip (s : string) : string :=
  strip_while space_at_head (String.length s) s.

Definition py_rstrip (s : string) : string :=
  String.rev (strip_while space_at_end (String.length s) (String.rev s)).

Definition py_strip (s : string) : string := py_rstrip (py_lstrip s).

(** Every byte of [s] satisfies [P]. *)
Fixpoint str_all (P : ascii → bool) (s : string) : bool :=
  match s with
  | "" => true
  | String a s' => P a && str_all P s'
  end.

(** The bytes that occur in the encoding of a whitespace character. *)
Definition strip_byte (a : ascii) : bool :=
  is_ascii_space a || (128 <=? N_of_ascii a)%N.

(* ------------------------------------------------------------------ *)
(** ** The external collaborators *)

(** [json.loads] on a [str]: the decoded value, or [JSONDecodeError]. *)
Class JsonDecoder := { json_loads : string → result pyval }.

(** What the documentation of [json.loads] promises on a [str]: it raises
    nothing but [JSONDecodeError]; a document that opens with a bracket
    decodes to a list, one that opens with a brace to a dict.  CPython's
    decoder keeps the first part only within its limits (it raises
    [RecursionError] on a document nested too deep and a plain [ValueError]
    on an integer of more than 4300 digits), so this is an assumption of the properties that name it, never a fact about every
    decoder. *)
Definition decoder_contract (dec : JsonDecoder) : Prop :=
  ∀ s, match json_loads s with
       | Ok v =>
           (∀ t, s = String lbracket t → ∃ l, v = PList l) ∧
           (∀ t, s = String lbrace t → ∃ d, v = PDict d)
       | Raise e => e = JSONDecodeError
       end.

Record SamplingParams :=
  { temperature : float; max_tokens : Z; top_p : float }.

Record LoRARequest :=
  { lora_name : string; lora_int_id : Z; lora_path : string }.

(** [llm.generate([prompt], params, lora_request=...)], read through
    [outputs[0].outputs[0].text]: the engine is sampled, so it carries a
    state of its own. *)
Class InferenceEngine :=
  { engine_state : Type;
    llm_generate :
      engine_state → string → SamplingParams → option LoRARequest →
      string * engine_state }.

Record call :=
  { c_prompt : string; c_params : SamplingParams; c_lora : option LoRARequest }.

Record world `{InferenceEngine} :=
  { w_engine : engine_state; w_calls : list call }.

(** Computations that may call the engine and may raise. *)
Definition M `{InferenceEngine} (A : Type) : Type := world → result A * world.

Definition ret `{InferenceEngine} {A} (a : A) : M A := λ w, (Ok a, w).

Definition bind `{InferenceEngine} {A B} (m : M A) (k : A → M B) : M B :=
  λ w, match m w with
       | (Ok a, w') => k a w'
       | (Raise e, w') => (Raise e, w')
       end.

Definition lift `{InferenceEngine} {A} (r : result A) : M A := λ w, (r, w).

Definition generate `{InferenceEngine}
    (prompt : string) (params : SamplingParams) (lora : option LoRARequest)
  : M string :=
  λ w, let '(text, e) := llm_generate (w_engine w) prompt params lora in
       (Ok text,
        {| w_engine := e;
           w_calls := w_calls w ++
             [{| c_prompt := prompt; c_params := params; c_lora := lora |}] |}).

Notation "'do' x <- m ; k" := (bind m (λ x, k))
  (at level 10, x name, m at level 100, k at level 200).

(** [for x in xs: acc = body(acc, x)] *)
Fixpoint for_each `{InferenceEngine} {A S}
    (xs : list A) (body : S → A → M S) (acc : S) : M S :=
  match xs with
  | [] => ret acc
  | x :: xs' => do acc' <- body acc x; for_each xs' body acc'
  end.

(** A message of a conversation: a dict with the keys [role], [content]. *)
Abbreviation msg := (gmap string string).

Definition mk_msg (role content : string) : msg :=
  {[ "role" := role; "content" := content ]}.

(** A [try] block either returns a value or runs to its end. *)
Inductive flow (A : Type) := Returned (a : A) | FellThrough.
Arguments Returned {A} a.
Arguments FellThrough {A}.

(** [try: body  except json.JSONDecodeError: pass], then [rest]. *)
Definition try_except_decode_error {A}
    (body : result (flow A)) (rest : result A) : result A :=
  match body with
  | Ok (Returned a) => Ok a
  | Ok FellThrough => rest
  | Raise JSONDecodeError => rest
  | Raise e => Raise e
  end.

Definition q (s : string) : string := dq +:+ s +:+ dq.

(* ------------------------------------------------------------------ *)
(** ** hermes.py *)

Module Hermes.

Definition SYSTEM_PROMPT : string :=
  "Sen Hermes, WhatsApp lojistik mesaj ayrıştırıcısısın.

Her mesajda BİRDEN FAZLA yük olabilir. Her yükü ayrı ayrı çıkar.

Her yük için:
- origin: Yükleme şehri/ilçesi
- destination: Teslim şehri/ilçesi
- weight: Tonaj (kg veya ton olarak)
- vehicle_type: TIR/KAMYON/KAMYONET
- body_type: ACIK/KAPALI/TENTELI/DAMPERLI
- phone: Telefon numarası

SADECE JSON array döndür. Başka açıklama yazma.".

Definition sampling_params : SamplingParams :=
  {| temperature := 0.1; max_tokens := 1024; top_p := 0.9 |}.

(** Lines 70-79: one turn of the loop of [_format_messages]. *)
Definition format_step (formatted : string) (m : msg) : string :=
  let role := default "user" (m !! "role") in
  let content := default "" (m !! "content") in
  if decide (role = "system") then
    formatted +:+ ("<|im_start|>system" +:+ nl +:+ content +:+ "<|im_end|>" +:+ nl)
  else if decide (role = "user") then
    formatted +:+ ("<|im_start|>user" +:+ nl +:+ content +:+ "<|im_end|>" +:+ nl)
  else if decide (role = "assistant") then
    formatted +:+ ("<|im_start|>assistant" +:+ nl +:+ content +:+ "<|im_end|>" +:+ nl)
  else formatted.

Definition _format_messages (messages : list msg) : string :=
  let formatted := fold_left format_step messages "" in
  formatted +:+ ("<|im_start|>assistant" +:+ nl).

Section WithRuntime.
Context {dec : JsonDecoder} {eng : InferenceEngine}.

(** Lines 98-107: the array extractor. *)
Definition parse_json_array (response : string) : result pyval :=
  try_except_decode_error
    (match re_search array_re response with
     | Some json_match =>
         result_bind (json_loads (m_group json_match)) (λ v, Ok (Returned v))
     | None => Ok FellThrough
     end)
    (Ok (PList [])).

Definition _parse_internal (raw_text : string) : M pyval :=
  let messages := [mk_msg "system" SYSTEM_PROMPT; mk_msg "user" raw_text] in
  let prompt := _format_messages messages in
  do text <- generate prompt sampling_params None;
  let response := py_strip text in
  lift (parse_json_array response).


(** The body of a [parse_message] request; [None] is an absent key. *)
Record ParseRequest := { pm_message : option string }.

Definition parse_message (request : ParseRequest) : M pyval :=
  let raw_text := default "" (pm_message request) in
  if decide (raw_text = "") then
    ret (PDict {[ "error" := PStr "No message provided"; "jobs" := PList [] ]})
  else
    do jobs <- _parse_internal raw_text;
    do count <- lift (py_len jobs);
    ret (PDict {[ "success" := PBool true; "jobs" := jobs;
                  "count" := PInt count ]}).

Record BatchRequest := { pb_messages : option (list string) }.

(** Lines 139-141: the body of the loop of [parse_batch]. *)
Definition batch_step (results : list pyval) (m : string) : M (list pyval) :=
  do jobs <- _parse_internal m;
  do count <- lift (py_len jobs);
  ret (results ++
       [PDict {[ "message" := PStr m; "jobs" := jobs; "count" := PInt count ]}]).

Definition parse_batch (request : BatchRequest) : M pyval :=
  let messages := default [] (pb_messages request) in
  if decide (messages = []) then
    ret (PDict {[ "error" := PStr "No messages provided"; "results" := PList [] ]})
  else
    do results <- for_each messages batch_step [];
    do total <- lift (result_bind (py_gen (λ r, py_getitem r "count") results)
                                  py_sum);
    ret (PDict {[ "success" := PBool true; "results" := PList results;
                  "total_jobs" := total ]}).

End WithRuntime.
End Hermes.

(* ------------------------------------------------------------------ *)
(** ** serve.py *)

Module Atlas.

(** What [load_model] leaves in [self]: the adapter, when its directory
    exists on the volume, and the default sampling parameters. *)
Record AtlasModel :=
  { lora_request : option LoRARequest; sampling_params : SamplingParams }.

Definition default_sampling_params : SamplingParams :=
  {| temperature := 0.7; max_tokens := 512; top_p := 0.9 |}.

(** The keyword arguments [load_model] passes to [LLM(...)]; [None] is an
    argument that is not passed. *)
Record LLMConfig :=
  { llm_model : string;
    llm_trust_remote_code : bool;
    llm_max_model_len : Z;
    llm_gpu_memory_utilization : float;
    llm_enable_lora : option bool;
    llm_max_lora_rank : option Z }.

(** Lines 62-102; [adapter_exists] is [os.path.exists(adapter_path)]. *)
Definition load_model (adapter_exists : bool) : LLMConfig * AtlasModel :=
  let adapter_path := "/model/atlas-1.4-adapter" in
  let merged_path := "/model/atlas-1" in
  let '(llm, lora) :=
    if adapter_exists then
      ({| llm_model := "Qwen/Qwen2.5-7B-Instruct";
          llm_trust_remote_code := true;
          llm_max_model_len := 4096;
          llm_gpu_memory_utilization := 0.9;
          llm_enable_lora := Some true;
          llm_max_lora_rank := Some 16%Z |},
       Some {| lora_name := "atlas-1.4"; lora_int_id := 1;
               lora_path := adapter_path |})
    else
      ({| llm_model := merged_path;
          llm_trust_remote_code := true;
          llm_max_model_len := 4096;
          llm_gpu_memory_utilization := 0.9;
          llm_enable_lora := None;
          llm_max_lora_rank := None |},
       None) in
  (llm, {| lora_request := lora; sampling_params := default_sampling_params |}).

Definition system_prompt : string :=
  "Sen Patron yük asistanısın. Mesajı analiz et ve JSON döndür.

INTENT TİPLERİ:
- search = yük arıyor (şehir adı var)
- pagination = devam, daha fazla, sonraki
- intra_city = şehir içi (istanbul içi)
- greeting = merhaba, selam, sa, günaydın
- goodbye = görüşürüz, bye, hoşçakal, bb, hadi eyvallah
- thanks = teşekkürler, sağol, eyvallah, tamam teşekkür
- bot_identity = sen kimsin, bot musun, gerçek mi
- help = nasıl kullanılır, yardım, örnek
- pricing = ücretli mi, kaç para, fiyat
- subscription = premium, abone, üyelik
- support = destek, şikayet, sorun var
- phone_question = telefon neden yok, numara
- load_price = navlun, yük fiyatı neden yok
- freshness = ne zaman güncelleniyor, taze mi
- vehicle_info = bende tır var, kamyonum var
- location_info = istanbul'dayım, buradayım
- feedback_positive = güzel, süper, işe yarıyor
- feedback_negative = kötü, berbat, işe yaramıyor
- confirmation = tamam, evet, ok
- negation = hayır, istemiyorum
- abuse = küfür, hakaret (orospu, piç, siktir)
- spam = bot mesajı, " +:+ q "bunun hakkında daha fazla bilgi" +:+ "
- international = yurtdışı (irak, iran, avrupa, bulgaristan, gürcistan, rusya, polonya)
- other = alakasız (kız arkadaş, hava durumu, vs)

KONUM KURALLARI:
- " +:+ q "X'e gitmek istiyorum, Y'deyim" +:+ " → origin:Y, destination:X
- " +:+ q "X'den Y'ye" +:+ " → origin:X, destination:Y
- " +:+ q "X Y" +:+ " (iki şehir) → origin:X, destination:Y
- " +:+ q "X içi" +:+ " → origin:X, destination:X, intent:intra_city

SADECE JSON, başka bir şey yazma:
{" +:+ q "intent" +:+ ":" +:+ q "..." +:+ "," +:+ q "origin" +:+ ":null," +:+ q "destination" +:+ ":null," +:+ q "vehicle_type" +:+ ":null," +:+ q "cargo_type" +:+ ":null}".

(** Lines 125-134: one turn of the loop of [_format_messages]. *)
Definition format_step (formatted : string) (m : msg) : string :=
  let role := default "user" (m !! "role") in
  let content := default "" (m !! "content") in
  if decide (role = "system") then
    formatted +:+ ("<|im_start|>system" +:+ nl +:+ content +:+ "<|im_end|>" +:+ nl)
  else if decide (role = "user") then
    formatted +:+ ("<|im_start|>user" +:+ nl +:+ content +:+ "<|im_end|>" +:+ nl)
  else if decide (role = "assistant") then
    formatted +:+ ("<|im_start|>assistant" +:+ nl +:+ content +:+ "<|im_end|>" +:+ nl)
  else formatted.

Definition _format_messages (messages : list msg) : string :=
  let formatted := fold_left format_step messages "" in
  formatted +:+ ("<|im_start|>assistant" +:+ nl).

Section WithRuntime.
Context {dec : JsonDecoder} {eng : InferenceEngine}.
Variable self : AtlasModel.

(** Lines 109-112 and 232-235: with the adapter when there is one. *)
Definition llm_call (prompt : string) (params : SamplingParams) : M string :=
  match lora_request self with
  | Some lora => generate prompt params (Some lora)
  | None => generate prompt params None
  end.

Definition _generate (messages : list msg) : M string :=
  let prompt := _format_messages messages in
  do response <- llm_call prompt (sampling_params self);
  ret (py_strip response).

(** Lines 244-252: the dict returned when the span decodes. *)
Definition intent_result (response : string) (parsed : pyval) : result pyval :=
  result_bind (py_get parsed "origin" PNone) (λ origin,
  result_bind (py_get parsed "destination" PNone) (λ destination,
  result_bind (py_get parsed "intent" (PStr "search")) (λ intent,
  result_bind (py_get parsed "vehicle_type" PNone) (λ vehicle_type,
  result_bind (py_get parsed "cargo_type" PNone) (λ cargo_type,
  Ok (PDict
    {[ "success" := PBool true;
       "origin" := origin;
       "destination" := destination;
       "intent" := intent;
       "vehicle_type" := vehicle_type;
       "cargo_type" := cargo_type;
       "raw_response" := PStr response ]})))))).

(** Lines 257-265: the dict returned otherwise. *)
Definition fallback (response : string) : pyval :=
  PDict
    {[ "success" := PBool false;
       "origin" := PNone;
       "destination" := PNone;
       "intent" := PStr "other";
       "vehicle_type" := PNone;
       "cargo_type" := PNone;
       "raw_response" := PStr response ]}.

(** Lines 238-265: the object extractor. *)
Definition parse_json_object (response : string) : result pyval :=
  try_except_decode_error
    (match re_search object_re response with
     | Some json_match =>
         result_bind (json_loads (m_group json_match)) (λ parsed,
         result_bind (intent_result response parsed) (λ r, Ok (Returned r)))
     | None => Ok FellThrough
     end)
    (Ok (fallback response)).

(** The body of a [parse_intent] request; [None] is an absent key. *)
Record IntentRequest :=
  { pi_message : option string; pi_history : option (list msg) }.

(** Lines 214-220: the conversation sent to the model. *)
Definition intent_messages (user_message : string) (history : list msg)
  : list msg :=
  let messages := [mk_msg "system" system_prompt] in
  let messages := fold_left (λ ms m, ms ++ [m]) (py_last 4 history) messages in
  messages ++ [mk_msg "user" user_message].

Definition json_params : SamplingParams :=
  {| temperature := 0.1; max_tokens := 150; top_p := 0.9 |}.

Definition parse_intent (request : IntentRequest) : M pyval :=
  let user_message := default "" (pi_message request) in
  let conversation_history := default [] (pi_history request) in
  if decide (user_message = "") then
    ret (PDict {[ "error" := PStr "No message provided" ]})
  else
    let messages := intent_messages user_message conversation_history in
    let prompt := _format_messages messages in
    do text <- llm_call prompt json_params;
    let response := py_strip text in
    lift (parse_json_object response).

(** Lines 117-120. *)
Definition generate (messages : list msg) : M string := _generate messages.

(** The body of a [chat] request; [None] is an absent key. *)
Record ChatRequest := { ch_messages : option (list msg) }.

(** Lines 140-162. *)
Definition chat (request : ChatRequest) : M pyval :=
  let messages := default [] (ch_messages request) in
  if decide (messages = []) then
    ret (PDict {[ "error" := PStr "No messages provided" ]})
  else
    do response <- _generate messages;
    ret (PDict
      {[ "id" := PStr "atlas-1";
         "object" := PStr "chat.completion";
         "model" := PStr "atlas-1";
         "choices" := PList
           [PDict
              {[ "index" := PInt 0;
                 "message" := PDict {[ "role" := PStr "assistant";
                                       "content" := PStr response ]};
                 "finish_reason" := PStr "stop" ]}] ]}).

End WithRuntime.
End Atlas.

(* ------------------------------------------------------------------ *)
(** ** upload_model.py

    The functions act on the file system and on the platform; they are
    embedded as the list of effects they perform, in order, when no call
    fails.  Of [main] the part after the walk of the model directory is
    embedded, from the list of files the walk collected. *)

Module Upload.

(** A file as the script carries it: its name and its bytes. *)
Abbreviation file := (string * string)%type.

Inductive event :=
| Makedirs (path : string)               (* os.makedirs(path, exist_ok=True) *)
| Write (path : string) (content : string)  (* open(path, "wb").write(content) *)
| Print (line : string)
| Commit                                 (* model_volume.commit() *)
| Remote (batch : list file).            (* upload_to_volume.remote(batch) *)

Definition slash : ascii := "/"%char.

Definition starts_with_slash (s : string) : bool :=
  match s with
  | String a _ => bool_decide (a = slash)
  | "" => false
  end.

Fixpoint ends_with_slash (s : string) : bool :=
  match s with
  | "" => false
  | String a "" => bool_decide (a = slash)
  | String _ s' => ends_with_slash s'
  end.

(** [os.path.join(a, b)] *)
Definition path_join (a b : string) : string :=
  if starts_with_slash b then b
  else if bool_decide (a = "") || ends_with_slash a then a +:+ b
  else a +:+ String slash "" +:+ b.

Fixpoint drop_slashes (s : string) : string :=
  match s with
  | String a s' => if decide (a = slash) then drop_slashes s' else s
  | "" => ""
  end.

(** [os.path.dirname(p)] *)
Definition dirname (p : string) : string :=
  match str_rfind slash p with
  | Some j =>
      let head := str_take (S j) p in
      if str_all (λ a, bool_decide (a = slash)) head then head
      else String.rev (drop_slashes (String.rev head))
  | None => ""
  end.

Definition dest_dir : string := "/model/atlas-1".

(** Lines 23-29: the body of the loop of [upload_to_volume]. *)
Definition upload_step (log : list event) (f : file) : list event :=
  let '(filename, content) := f in
  let filepath := path_join dest_dir filename in
  log ++ [Makedirs (dirname filepath);
          Write filepath content;
          Print ("Uploaded: " +:+ filename)].

(** Lines 16-32. *)
Definition upload_to_volume (local_files : list file) : list event :=
  let log := [Makedirs dest_dir] in
  let log := fold_left upload_step local_files log in
  log ++ [Commit; Print (nl +:+ "Model uploaded to " +:+ dest_dir)].

Definition BATCH_SIZE : nat := 5.

(** [range(start, stop, step)] for a positive step. *)
Fixpoint py_range (fuel start stop step : nat) : list nat :=
  match fuel with
  | 0 => []
  | S fuel' =>
      if decide (start < stop)
      then start :: py_range fuel' (start + step) stop step
      else []
  end.

(** [l[i:j]] *)
Definition py_slice {A} (i j : nat) (l : list A) : list A :=
  take (j - i) (drop i l).

(** Lines 64-67: the body of the loop of [main]. *)
Definition batch_step (files : list file) (log : list event) (i : nat)
  : list event :=
  let batch := py_slice i (i + BATCH_SIZE) files in
  log ++ [Remote batch;
          Print ("Batch " +:+ pretty (i / BATCH_SIZE + 1) +:+ " uploaded")].

(** Lines 60-69 of [main], from the files collected by the walk. *)
Definition main_upload (files : list file) : list event :=
  let log := [Print (nl +:+ "Uploading " +:+ pretty (length files) +:+ " files...")] in
  let log :=
    fold_left (batch_step files)
      (py_range (length files) 0 (length files) BATCH_SIZE) log in
  log ++ [Print (nl +:+ "Done! Model is ready on Modal.")].

End Upload.

(* ------------------------------------------------------------------ *)
(** ** The specification's vocabulary *)

(** A turn of a conversation, as the data model has it. *)
Inductive Role := system | user | assistant.

Record ConversationTurn := { turn_role : Role; turn_content : string }.

Definition role_name (r : Role) : string :=
  match r with
  | system => "system"
  | user => "user"
  | assistant => "assistant"
  end.

Definition turn_msg (t : ConversationTurn) : msg :=
  mk_msg (role_name (turn_role t)) (turn_content t).

(** A role-delimited block: opening marker, verbatim content, closing
    marker. *)
Definition block (t : ConversationTurn) : string :=
  "<|im_start|>" +:+ role_name (turn_role t) +:+ nl +:+
  turn_content t +:+ "<|im_end|>" +:+ nl.

Definition assistant_marker : string := "<|im_start|>assistant" +:+ nl.

Fixpoint str_concat (ss : list string) : string :=
  match ss with
  | [] => ""
  | s :: ss' => s +:+ str_concat ss'
  end.

(** The span from the first [[] to the last []] of the text. *)
Definition bracket_span (s : string) : option string :=
  i ← str_find lbracket s;
  j ← str_rfind rbracket s;
  if decide (i < j) then Some (str_slice i j s) else None.

(** Index of the first [c] that no backslash escapes. *)
Fixpoint find_unescaped (c : ascii) (s : string) : option nat :=
  match s with
  | "" => None
  | String a s' =>
      if decide (a = backslash) then
        match s' with
        | String _ s'' => (λ n, S (S n)) <$> find_unescaped c s''
        | "" => None
        end
      else if decide (a = c) then Some 0
      else S <$> find_unescaped c s'
  end.

(** The span the specification describes for the object extractor: from
    the first [{] to the first unescaped [}] after it. *)
Definition first_brace_span (s : string) : option string :=
  i ← str_find lbrace s;
  j ← find_unescaped rbrace (str_drop (S i) s);
  Some (str_slice i (S i + j) s).

(** Index of the first [{] that is followed by a character other than
    [}]. *)
Fixpoint find_open_brace (s : string) : option nat :=
  match s with
  | "" => None
  | String a s' =>
      if decide (a = lbrace) then
        match s' with
        | String b _ =>
            if decide (b = rbrace) then S <$> find_open_brace s' else Some 0
        | "" => None
        end
      else S <$> find_open_brace s'
  end.

(** From that [{] to the first [}] after it, escaped or not. *)
Definition nonempty_brace_span (s : string) : option string :=
  i ← find_open_brace s;
  j ← str_find rbrace (str_drop (S i) s);
  Some (str_slice i (S i + j) s).

(** The fields of an ExtractedJob. *)
Definition job_fields : gset string :=
  {[ "origin"; "destination"; "weight"; "vehicle_type"; "body_type"; "phone" ]}.

(** A value of the ExtractedJob shape: an object with no field outside
    [job_fields]. *)
Definition job_shaped (v : pyval) : Prop :=
  ∃ d, v = PDict d ∧ dom d ⊆ job_fields.

(** An entry of the results of [parse_batch]. *)
Definition batch_entry (m : string) (jobs : list pyval) : pyval :=
  PDict {[ "message" := PStr m; "jobs" := PList jobs;
           "count" := PInt (Z.of_nat (length jobs)) ]}.

(** The prompt [_parse_internal] builds for a message, and the call to the
    engine that carries it. *)
Definition hermes_prompt (raw_text : string) : string :=
  Hermes._format_messages
    [mk_msg "system" Hermes.SYSTEM_PROMPT; mk_msg "user" raw_text].

Definition hermes_call (raw_text : string) : call :=
  {| c_prompt := hermes_prompt raw_text;
     c_params := Hermes.sampling_params;
     c_lora := None |}.

(** The completions the engine gives for the messages of a batch, asked one
    after the other, and the state the engine is left in. *)
Fixpoint batch_completions `{InferenceEngine}
    (msgs : list string) (e : engine_state) : list string * engine_state :=
  match msgs with
  | [] => ([], e)
  | m :: msgs' =>
      let '(text, e1) :=
        llm_generate e (hermes_prompt m) Hermes.sampling_params None in
      let '(texts, e2) := batch_completions msgs' e1 in
      (text :: texts, e2)
  end.

(** A message whose role is one of the three the formatters know; a
    message without a role counts as the user's. *)
Definition known_role (m : msg) : bool :=
  let role := default "user" (m !! "role") in
  bool_decide (role = "system") || bool_decide (role = "user")
  || bool_decide (role = "assistant").

(** What a message adds to the prompt. *)
Definition render (m : msg) : string :=
  if known_role m then
    "<|im_start|>" +:+ default "user" (m !! "role") +:+ nl +:+
    default "" (m !! "content") +:+ "<|im_end|>" +:+ nl
  else "".

(** The keys of the value [parse_intent] returns for a non-empty message. *)
Definition intent_keys : gset string :=
  {[ "success"; "origin"; "destination"; "intent"; "vehicle_type";
     "cargo_type"; "raw_response" ]}.

(** The jobs the array extractor finds in a completion. *)
Definition extracted_jobs {dec : JsonDecoder} (text : string) : list pyval :=
  match Hermes.parse_json_array (py_strip text) with
  | Ok (PList jobs) => jobs
  | _ => []
  end.

(** On the bracket span of a completion the decoder does one of the two
    things the array extractor is written for: it decodes the span, to a
    list, or it rejects it with [JSONDecodeError]. *)
Definition decodes_or_rejects {dec : JsonDecoder} (text : string) : Prop :=
  ∀ span, bracket_span text = Some span →
    json_loads span = Raise JSONDecodeError ∨ ∃ l, json_loads span = Ok (PList l).

(** The effects of a log, by kind. *)
Definition writes (log : list Upload.event) : list Upload.file :=
  omap (λ ev, match ev with Upload.Write p c => Some (p, c) | _ => None end) log.

Definition remote_calls (log : list Upload.event) : list (list Upload.file) :=
  omap (λ ev, match ev with Upload.Remote b => Some b | _ => None end) log.

Definition commits (log : list Upload.event) : nat :=
  length (omap (λ ev, match ev with Upload.Commit => Some () | _ => None end) log).

(** The path [upload_to_volume] writes a file to. *)
Definition volume_path (filename : string) : string :=
  if Upload.starts_with_slash filename then filename
  else "/model/atlas-1/" +:+ filename.

(* ------------------------------------------------------------------ *)
(** ** Reference instances of the collaborators

    [RefJson.loads] decodes the documents built from [null], [true],
    [false], integers, strings with the one-letter escapes, arrays and
    objects, as [json.loads] does, and raises [JSONDecodeError] on every
    other text.  [Json311.loads], after it, adds the bound of CPython on
    nesting.  [scripted] is an engine that answers from a list of prepared
    completions. *)

Module RefJson.

Inductive token :=
| TLBracket | TRBracket | TLBrace | TRBrace | TColon | TComma
| TNull | TTrue | TFalse
| TInt (z : Z)
| TStr (s : string).

Definition is_json_space (a : ascii) : bool :=
  let n := N_of_ascii a in
  ((n =? 32) || (n =? 9) || (n =? 10) || (n =? 13))%N.

Definition digit (a : ascii) : option Z :=
  let n := N_of_ascii a in
  if ((48 <=? n) && (n <=? 57))%N then Some (Z.of_N n - 48)%Z else None.

Fixpoint lex_digits (acc : Z) (s : string) : Z * string :=
  match s with
  | String a s' =>
      match digit a with
      | Some d => lex_digits (10 * acc + d)%Z s'
      | None => (acc, s)
      end
  | "" => (acc, s)
  end.

(** [0|[1-9][0-9]*] *)
Definition lex_nat (s : string) : option (Z * string) :=
  match s with
  | String a s' =>
      match digit a with
      | Some 0%Z => Some (0%Z, s')
      | Some d => Some (lex_digits d s')
      | None => None
      end
  | "" => None
  end.

Definition unescape (e : ascii) : option ascii :=
  if decide (e = "034"%char) then Some "034"%char
  else if decide (e = backslash) then Some backslash
  else if decide (e = "/"%char) then Some "/"%char
  else if decide (e = "b"%char) then Some "008"%char
  else if decide (e = "f"%char) then Some "012"%char
  else if decide (e = "n"%char) then Some "010"%char
  else if decide (e = "r"%char) then Some "013"%char
  else if decide (e = "t"%char) then Some "009"%char
  else None.

(** The text of a string literal after its opening quote, and the rest. *)
Fixpoint lex_string (s : string) : option (string * string) :=
  match s with
  | "" => None
  | String a s' =>
      if decide (a = "034"%char) then Some ("", s')
      else if decide (a = backslash) then
        match s' with
        | String e s'' =>
            c ← unescape e;
            '(str, rest) ← lex_string s'';
            Some (String c str, rest)
        | "" => None
        end
      else if (N_of_ascii a <? 32)%N then None
      else '(str, rest) ← lex_string s'; Some (String a str, rest)
  end.

Fixpoint strip_prefix (p s : string) : option string :=
  match p, s with
  | "", _ => Some s
  | String a p', String b s' => if decide (a = b) then strip_prefix p' s' else None
  | _, "" => None
  end.

Fixpoint lex (fuel : nat) (s : string) : option (list token) :=
  match fuel with
  | 0 => None
  | S fuel' =>
      match s with
      | "" => Some []
      | String a s' =>
          if is_json_space a then lex fuel' s'
          else if decide (a = lbracket) then (TLBracket ::.) <$> lex fuel' s'
          else if decide (a = rbracket) then (TRBracket ::.) <$> lex fuel' s'
          else if decide (a = lbrace) then (TLBrace ::.) <$> lex fuel' s'
          else if decide (a = rbrace) then (TRBrace ::.) <$> lex fuel' s'
          else if decide (a = ":"%char) then (TColon ::.) <$> lex fuel' s'
          else if decide (a = ","%char) then (TComma ::.) <$> lex fuel' s'
          else if decide (a = "034"%char) then
            '(str, rest) ← lex_string s'; (TStr str ::.) <$> lex fuel' rest
          else if decide (a = "-"%char) then
            '(z, rest) ← lex_nat s'; (TInt (- z) ::.) <$> lex fuel' rest
          else if decide (a = "n"%char) then
            rest ← strip_prefix "ull" s'; (TNull ::.) <$> lex fuel' rest
          else if decide (a = "t"%char) then
            rest ← strip_prefix "rue" s'; (TTrue ::.) <$> lex fuel' rest
          else if decide (a = "f"%char) then
            rest ← strip_prefix "alse" s'; (TFalse ::.) <$> lex fuel' rest
          else
            '(z, rest) ← lex_nat s; (TInt z ::.) <$> lex fuel' rest
      end
  end.

Abbreviation parser A := (list token → option (A * list token)).

(** [value (, value)* ]], after the opening bracket. *)
Fixpoint parse_elems (value : parser pyval) (fuel : nat) : parser (list pyval) :=
  λ ts,
  match fuel with
  | 0 => None
  | S fuel' =>
      '(v, ts1) ← value ts;
      match ts1 with
      | TComma :: ts2 =>
          '(vs, ts3) ← parse_elems value fuel' ts2; Some (v :: vs, ts3)
      | TRBracket :: ts2 => Some ([v], ts2)
      | _ => None
      end
  end.

(** [key : value (, key : value)* }], after the opening brace; a key that
    comes again replaces the earlier one. *)
Fixpoint parse_members (value : parser pyval) (fuel : nat)
    (d : gmap string pyval) : parser (gmap string pyval) :=
  λ ts,
  match fuel with
  | 0 => None
  | S fuel' =>
      match ts with
      | TStr k :: TColon :: ts1 =>
          '(v, ts2) ← value ts1;
          match ts2 with
          | TComma :: ts3 => parse_members value fuel' (<[k:=v]> d) ts3
          | TRBrace :: ts3 => Some (<[k:=v]> d, ts3)
          | _ => None
          end
      | _ => None
      end
  end.

Fixpoint parse_value (fuel : nat) : parser pyval :=
  λ ts,
  match fuel with
  | 0 => None
  | S fuel' =>
      match ts with
      | TNull :: ts1 => Some (PNone, ts1)
      | TTrue :: ts1 => Some (PBool true, ts1)
      | TFalse :: ts1 => Some (PBool false, ts1)
      | TInt z :: ts1 => Some (PInt z, ts1)
      | TStr s :: ts1 => Some (PStr s, ts1)
      | TLBracket :: TRBracket :: ts1 => Some (PList [], ts1)
      | TLBracket :: ts1 =>
          '(vs, ts2) ← parse_elems (parse_value fuel') fuel' ts1;
          Some (PList vs, ts2)
      | TLBrace :: TRBrace :: ts1 => Some (PDict ∅, ts1)
      | TLBrace :: ts1 =>
          '(d, ts2) ← parse_members (parse_value fuel') fuel' ∅ ts1;
          Some (PDict d, ts2)
      | _ => None
      end
  end.

Definition loads (s : string) : result pyval :=
  match lex (S (String.length s)) s with
  | Some ts =>
      match parse_value (S (length ts)) ts with
      | Some (v, []) => Ok v
      | _ => Raise JSONDecodeError
      end
  | None => Raise JSONDecodeError
  end.

End RefJson.

Definition ref_json : JsonDecoder := {| json_loads := RefJson.loads |}.

(** [Json311.loads] is [RefJson.loads] with the limit that CPython 3.11,
    the interpreter of both images, puts on nesting: every array or object
    being decoded takes one level of the interpreter's recursion limit, 1000
    by default, and the frames of the caller take at least one; when no
    level is left the decoder raises [RecursionError], which is no
    [JSONDecodeError].  The decoder below is given 999 levels, the most it
    can have; CPython's bound on the digits of an integer is left out. *)

Module Json311.

Inductive outcome (A : Type) :=
| Parsed (a : A) (rest : list RefJson.token)
| Malformed
| TooDeep.
Arguments Parsed {A} a rest.
Arguments Malformed {A}.
Arguments TooDeep {A}.

Definition outcome_map {A B} (f : A → B) (o : outcome A) : outcome B :=
  match o with
  | Parsed a rest => Parsed (f a) rest
  | Malformed => Malformed
  | TooDeep => TooDeep
  end.

(** The levels left to the decoder when it is called. *)
Definition nesting_budget : nat := 999.

Fixpoint parse_elems (value : list RefJson.token → outcome pyval)
    (fuel : nat) (ts : list RefJson.token) : outcome (list pyval) :=
  match fuel with
  | 0 => Malformed
  | S fuel' =>
      match value ts with
      | Parsed v (RefJson.TComma :: ts2) =>
          outcome_map (cons v) (parse_elems value fuel' ts2)
      | Parsed v (RefJson.TRBracket :: ts2) => Parsed [v] ts2
      | Parsed _ _ => Malformed
      | Malformed => Malformed
      | TooDeep => TooDeep
      end
  end.

Fixpoint parse_members (value : list RefJson.token → outcome pyval)
    (fuel : nat) (d : gmap string pyval) (ts : list RefJson.token)
  : outcome (gmap string pyval) :=
  match fuel with
  | 0 => Malformed
  | S fuel' =>
      match ts with
      | RefJson.TStr k :: RefJson.TColon :: ts1 =>
          match value ts1 with
          | Parsed v (RefJson.TComma :: ts3) =>
              parse_members value fuel' (<[k:=v]> d) ts3
          | Parsed v (RefJson.TRBrace :: ts3) => Parsed (<[k:=v]> d) ts3
          | Parsed _ _ => Malformed
          | Malformed => Malformed
          | TooDeep => TooDeep
          end
      | _ => Malformed
      end
  end.

Fixpoint parse_value (depth fuel : nat) (ts : list RefJson.token)
  : outcome pyval :=
  match fuel with
  | 0 => Malformed
  | S fuel' =>
      match ts with
      | RefJson.TNull :: ts1 => Parsed PNone ts1
      | RefJson.TTrue :: ts1 => Parsed (PBool true) ts1
      | RefJson.TFalse :: ts1 => Parsed (PBool false) ts1
      | RefJson.TInt z :: ts1 => Parsed (PInt z) ts1
      | RefJson.TStr s :: ts1 => Parsed (PStr s) ts1
      | RefJson.TLBracket :: ts1 =>
          match depth with
          | 0 => TooDeep
          | S depth' =>
              match ts1 with
              | RefJson.TRBracket :: ts2 => Parsed (PList []) ts2
              | _ =>
                  outcome_map PList
                    (parse_elems (parse_value depth' fuel') fuel' ts1)
              end
          end
      | RefJson.TLBrace :: ts1 =>
          match depth with
          | 0 => TooDeep
          | S depth' =>
              match ts1 with
              | RefJson.TRBrace :: ts2 => Parsed (PDict ∅) ts2
              | _ =>
                  outcome_map PDict
                    (parse_members (parse_value depth' fuel') fuel' ∅ ts1)
              end
          end
      | _ => Malformed
      end
  end.

Definition loads (s : string) : result pyval :=
  match RefJson.lex (S (String.length s)) s with
  | Some ts =>
      match parse_value nesting_budget (S (length ts)) ts with
      | Parsed v [] => Ok v
      | Parsed _ _ => Raise JSONDecodeError
      | Malformed => Raise JSONDecodeError
      | TooDeep => Raise RecursionError
      end
  | None => Raise JSONDecodeError
  end.

End Json311.


(** The engine that answers with the next prepared completion, and with the
    empty text once they are used up. *)
Definition scripted : InferenceEngine :=
  {| engine_state := list string;
     llm_generate := λ st _ _ _,
       match st with
       | r :: st' => (r, st')
       | [] => ("", [])
       end |}.

Definition fresh_world `{InferenceEngine} (e : engine_state) : world :=
  {| w_engine := e; w_calls := [] |}.

(** The scripted engine before its first call. *)
Definition scripted_world (completions : list string) : @world scripted :=
  @fresh_world scripted completions.

(** *** Concrete inputs for the examples *)

Definition two_numbers : string := "  Sure: [1, 2] (two jobs) " +:+ nl.


Definition priced_job : string :=
  "[{" +:+ q "origin" +:+ ": " +:+ q "A" +:+ ", " +:+ q "price" +:+ ": 5}]".

Definition one_job : string :=
  "[{" +:+ q "origin" +:+ ": " +:+ q "A" +:+ ", " +:+
          q "destination" +:+ ": " +:+ q "B" +:+ ", " +:+
          q "vehicle_type" +:+ ": " +:+ q "TIR" +:+ "}]".

Definition six_turns : list msg :=
  [mk_msg "user" "a"; mk_msg "assistant" "b";
   mk_msg "user" "c"; mk_msg "assistant" "d";
   mk_msg "user" "e"; mk_msg "assistant" "f"].



Definition search_intent : string :=
  "Tamam: {" +:+ q "intent" +:+ ": " +:+ q "search" +:+ ", " +:+
               q "origin" +:+ ": " +:+ q "A" +:+ "}".

Definition null_origin : string :=
  "{" +:+ q "origin" +:+ ": null, " +:+ q "note" +:+ ": 1}".

(** A model loaded without the adapter. *)
Definition plain_model : Atlas.AtlasModel :=
  {| Atlas.lora_request := None;
     Atlas.sampling_params := Atlas.default_sampling_params |}.

(* ------------------------------------------------------------------ *)
(** * Properties *)

(** ** Strings *)

Lemma str_app_nil_l (s : string) : "" +:+ s = s.
Proof. reflexivity. Qed.

Lemma str_app_cons (a : ascii) (s t : string) :
  String a s +:+ t = String a (s +:+ t).
Proof. reflexivity. Qed.

Lemma str_app_nil_r (s : string) : s +:+ "" = s.
Proof.
  induction s as [|a s IH]; [reflexivity|].
  rewrite str_app_cons. by f_equal.
Qed.

Lemma str_app_assoc (s t u : string) : (s +:+ t) +:+ u = s +:+ (t +:+ u).
Proof.
  induction s as [|a s IH]; [reflexivity|].
  rewrite !str_app_cons. by f_equal.
Qed.

Lemma str_find_drop_None (c : ascii) (n : nat) (s : string) :
  str_find c s = None → str_find c (str_drop n s) = None.
Proof.
  revert s. induction n as [|n IH]; intros [|a s]; simpl; try done.
  case_decide; [done|].
  destruct (str_find c s) eqn:E; [done|]. intros _. by apply IH.
Qed.

(** ** The two patterns, read as spans *)

Lemma match_star_any_rbracket (s : string) :
  match_star AnyChar (match_at [(Lit rbracket, Once)]) s
  = S <$> str_rfind rbracket s.
Proof.
  induction s as [|a s IH]; [reflexivity|].
  cbn [match_star class_mem]. rewrite IH. cbn [str_rfind].
  destruct (str_rfind rbracket s) as [j|]; [reflexivity|].
  cbn [match_at class_mem fmap option_fmap option_map].
  destruct (decide (a = rbracket)).
  - by rewrite bool_decide_true.
  - by rewrite bool_decide_false.
Qed.

Lemma match_at_array_re (a : ascii) (s : string) :
  match_at array_re (String a s)
  = if decide (a = lbracket) then (λ j, S (S j)) <$> str_rfind rbracket s
    else None.
Proof.
  unfold array_re. cbn [match_at class_mem].
  destruct (decide (a = lbracket)).
  - rewrite bool_decide_true by done.
    fold (match_at [(Lit rbracket, Once)]).
    rewrite match_star_any_rbracket.
    by destruct (str_rfind rbracket s).
  - by rewrite bool_decide_false.
Qed.

Lemma bracket_span_skip (a : ascii) (s : string) :
  a ≠ lbracket → bracket_span (String a s) = bracket_span s.
Proof.
  intros Ha. unfold bracket_span. cbn [str_find str_rfind].
  destruct (decide (a = lbracket)); [done|].
  destruct (str_find lbracket s) as [i|]; [|reflexivity]. cbn.
  destruct (str_rfind rbracket s) as [j|]; cbn.
  - destruct (decide (i < j)), (decide (S i < S j)); try lia; reflexivity.
  - destruct (decide (a = rbracket)); cbn; [|reflexivity].
    destruct (decide (S i < 0)); [lia|reflexivity].
Qed.

Lemma bracket_span_no_rbracket (s : string) :
  str_rfind rbracket s = None → bracket_span s = None.
Proof.
  intros E. unfold bracket_span. rewrite E.
  by destruct (str_find lbracket s).
Qed.

(** [re.search(r'\[[\s\S]*\]', s)] finds the span from the first [[] to
    the last []]. *)
Lemma search_array_re (s : string) :
  m_group <$> re_search array_re s = bracket_span s.
Proof.
  induction s as [|a s IH]; [reflexivity|].
  cbn [re_search]. rewrite match_at_array_re.
  destruct (decide (a = lbracket)) as [->|Ha].
  - destruct (str_rfind rbracket s) as [j|] eqn:Ej; cbn [fmap option_fmap option_map].
    + unfold bracket_span. cbn [str_find str_rfind]. rewrite Ej.
      rewrite (decide_True (P := lbracket = lbracket)) by done. cbn.
      rewrite decide_True by lia. reflexivity.
    + rewrite (bracket_span_no_rbracket s Ej) in IH.
      destruct (re_search array_re s); [done|]. cbn.
      unfold bracket_span. cbn [str_find str_rfind]. rewrite Ej.
      rewrite (decide_True (P := lbracket = lbracket)) by done.
      by rewrite (decide_False (P := lbracket = rbracket)) by done.
  - rewrite bracket_span_skip by done. rewrite <- IH.
    by destruct (re_search array_re s).
Qed.

Lemma match_star_not_rbrace (s : string) :
  match_star (NotLit rbrace) (match_at [(Lit rbrace, Once)]) s
  = S <$> str_find rbrace s.
Proof.
  induction s as [|a s IH]; [reflexivity|].
  cbn [match_star class_mem]. rewrite IH. cbn [str_find].
  destruct (decide (a = rbrace)).
  - rewrite bool_decide_true by done.
    cbn [negb match_at class_mem fmap option_fmap option_map].
    by rewrite bool_decide_true.
  - rewrite bool_decide_false by done.
    cbn [negb match_at class_mem fmap option_fmap option_map].
    rewrite bool_decide_false by done.
    by destruct (str_find rbrace s).
Qed.

Lemma match_at_object_re (a : ascii) (s : string) :
  match_at object_re (String a s)
  = if decide (a = lbrace) then
      match s with
      | String b _ =>
          if decide (b = rbrace) then None
          else (λ j, S (S j)) <$> str_find rbrace s
      | "" => None
      end
    else None.
Proof.
  unfold object_re. cbn [match_at class_mem].
  destruct (decide (a = lbrace)); [|by rewrite bool_decide_false].
  rewrite bool_decide_true by done.
  destruct s as [|b s]; [reflexivity|].
  destruct (decide (b = rbrace)).
  { by rewrite bool_decide_true. }
  rewrite bool_decide_false by done. cbn [negb].
  fold (match_at [(Lit rbrace, Once)]).
  rewrite match_star_not_rbrace. cbn [str_find].
  rewrite decide_False by done.
  by destruct (str_find rbrace s).
Qed.

Lemma nonempty_brace_span_skip (a : ascii) (s : string) :
  find_open_brace (String a s) = S <$> find_open_brace s →
  nonempty_brace_span (String a s) = nonempty_brace_span s.
Proof.
  intros E. unfold nonempty_brace_span. rewrite E.
  by destruct (find_open_brace s).
Qed.

(** [re.search(r'\{[^}]+\}', s)] finds the span from the first [{] that
    is followed by another character than [}] to the first [}] after it. *)
Lemma search_object_re (s : string) :
  m_group <$> re_search object_re s = nonempty_brace_span s.
Proof.
  induction s as [|a s IH]; [reflexivity|].
  cbn [re_search]. rewrite match_at_object_re.
  assert (Hskip : find_open_brace (String a s) = S <$> find_open_brace s →
    m_group <$> (shift_match <$> re_search object_re s)
    = nonempty_brace_span (String a s)).
  { intros E. rewrite nonempty_brace_span_skip by done. rewrite <- IH.
    by destruct (re_search object_re s). }
  destruct (decide (a = lbrace)) as [->|Ha].
  - destruct s as [|b s]; [reflexivity|].
    destruct (decide (b = rbrace)) as [->|Hb].
    + apply Hskip. cbn [find_open_brace].
      rewrite (decide_True (P := lbrace = lbrace)) by done.
      by rewrite (decide_True (P := rbrace = rbrace)) by done.
    + destruct (str_find rbrace (String b s)) as [j|] eqn:Ej;
        cbn [fmap option_fmap option_map].
      * unfold nonempty_brace_span. cbn [find_open_brace].
        rewrite (decide_True (P := lbrace = lbrace)) by done.
        rewrite (decide_False (P := b = rbrace)) by done.
        cbn [mbind option_bind str_drop]. rewrite Ej. reflexivity.
      * assert (nonempty_brace_span (String b s) = None) as E.
        { unfold nonempty_brace_span.
          destruct (find_open_brace (String b s)) as [i|]; [|done].
          cbn [mbind option_bind].
          by rewrite (str_find_drop_None _ (S i) _ Ej). }
        rewrite E in IH.
        destruct (re_search object_re (String b s)); [done|]. cbn.
        unfold nonempty_brace_span. cbn [find_open_brace].
        rewrite (decide_True (P := lbrace = lbrace)) by done.
        rewrite (decide_False (P := b = rbrace)) by done.
        cbn [mbind option_bind str_drop]. by rewrite Ej.
  - apply Hskip. cbn [find_open_brace].
    by rewrite (decide_False (P := a = lbrace)) by done.
Qed.

Lemma search_group (r : regex) (s : string) (g : string) :
  m_group <$> re_search r s = Some g → ∃ m, re_search r s = Some m ∧ m_group m = g.
Proof. destruct (re_search r s) as [m|]; naive_solver. Qed.

Lemma search_none (r : regex) (s : string) :
  m_group <$> re_search r s = None → re_search r s = None.
Proof. by destruct (re_search r s). Qed.

(** ** [strip()] leaves the bracket span alone *)

Lemma str_all_app (P : ascii → bool) (s t : string) :
  str_all P (s +:+ t) = str_all P s && str_all P t.
Proof.
  induction s as [|a s IH]; [reflexivity|].
  rewrite str_app_cons. cbn [str_all]. rewrite IH. apply andb_assoc.
Qed.

Lemma rev_app_acc (s acc : string) :
  String.rev_app s acc = String.rev s +:+ acc.
Proof.
  unfold String.rev. revert acc.
  induction s as [|a s IH]; intros acc; [reflexivity|].
  cbn [String.rev_app]. rewrite (IH (String a acc)), (IH (String a "")).
  by rewrite str_app_assoc.
Qed.

Lemma rev_cons (a : ascii) (s : string) :
  String.rev (String a s) = String.rev s +:+ String a "".
Proof. unfold String.rev at 1. cbn [String.rev_app]. apply rev_app_acc. Qed.

Lemma rev_app_distr (s t : string) :
  String.rev (s +:+ t) = String.rev t +:+ String.rev s.
Proof.
  induction s as [|a s IH].
  - by rewrite str_app_nil_l, str_app_nil_r.
  - rewrite str_app_cons, !rev_cons, IH. apply str_app_assoc.
Qed.

Lemma rev_involutive (s : string) : String.rev (String.rev s) = s.
Proof.
  induction s as [|a s IH]; [reflexivity|].
  by rewrite rev_cons, rev_app_distr, IH.
Qed.

Lemma str_all_rev (P : ascii → bool) (s : string) :
  str_all P (String.rev s) = str_all P s.
Proof.
  induction s as [|a s IH]; [reflexivity|].
  rewrite rev_cons, str_all_app, IH. cbn [str_all].
  rewrite andb_true_r. apply andb_comm.
Qed.

Lemma is_space2_bytes (a b : ascii) :
  is_space2 a b = true → strip_byte a = true ∧ strip_byte b = true.
Proof.
  unfold is_space2, strip_byte.
  rewrite !andb_true_iff, !orb_true_iff, !N.eqb_eq, !N.leb_le. lia.
Qed.

Lemma is_space3_bytes (a b c : ascii) :
  is_space3 a b c = true →
  strip_byte a = true ∧ strip_byte b = true ∧ strip_byte c = true.
Proof.
  unfold is_space3, strip_byte.
  rewrite !orb_true_iff, !andb_true_iff, !orb_true_iff, !andb_true_iff,
    !N.eqb_eq, !N.leb_le. lia.
Qed.

Lemma ascii_space_byte (a : ascii) :
  is_ascii_space a = true → strip_byte a = true.
Proof. unfold strip_byte. by intros ->. Qed.

Lemma space_at_head_prefix (s r : string) :
  space_at_head s = Some r →
  ∃ p, s = p +:+ r ∧ str_all strip_byte p = true.
Proof.
  unfold space_at_head. destruct s as [|a [|b [|c s]]]; try done.
  - destruct (is_ascii_space a) eqn:Ea; [|done]. intros [= <-].
    exists (String a ""). cbn [str_all]. by rewrite ascii_space_byte.
  - destruct (is_ascii_space a) eqn:Ea.
    { intros [= <-]. exists (String a ""). cbn [str_all].
      by rewrite ascii_space_byte. }
    destruct (is_space2 a b) eqn:E2; [|done]. intros [= <-].
    apply is_space2_bytes in E2 as [Ha Hb].
    exists (String a (String b "")). cbn [str_all]. by rewrite Ha, Hb.
  - destruct (is_ascii_space a) eqn:Ea.
    { intros [= <-]. exists (String a ""). cbn [str_all].
      by rewrite ascii_space_byte. }
    destruct (is_space2 a b) eqn:E2.
    { intros [= <-]. apply is_space2_bytes in E2 as [Ha Hb].
      exists (String a (String b "")). cbn [str_all]. by rewrite Ha, Hb. }
    destruct (is_space3 a b c) eqn:E3; [|done]. intros [= <-].
    apply is_space3_bytes in E3 as (Ha & Hb & Hc).
    exists (String a (String b (String c ""))). cbn [str_all].
    by rewrite Ha, Hb, Hc.
Qed.

Lemma space_at_end_prefix (s r : string) :
  space_at_end s = Some r →
  ∃ p, s = p +:+ r ∧ str_all strip_byte p = true.
Proof.
  unfold space_at_end. destruct s as [|c [|b [|a s]]]; try done.
  - destruct (is_ascii_space c) eqn:Ec; [|done]. intros [= <-].
    exists (String c ""). cbn [str_all]. by rewrite ascii_space_byte.
  - destruct (is_ascii_space c) eqn:Ec.
    { intros [= <-]. exists (String c ""). cbn [str_all].
      by rewrite ascii_space_byte. }
    destruct (is_space2 b c) eqn:E2; [|done]. intros [= <-].
    apply is_space2_bytes in E2 as [Hb Hc].
    exists (String c (String b "")). cbn [str_all]. by rewrite Hb, Hc.
  - destruct (is_ascii_space c) eqn:Ec.
    { intros [= <-]. exists (String c ""). cbn [str_all].
      by rewrite ascii_space_byte. }
    destruct (is_space2 b c) eqn:E2.
    { intros [= <-]. apply is_space2_bytes in E2 as [Hb Hc].
      exists (String c (String b "")). cbn [str_all]. by rewrite Hb, Hc. }
    destruct (is_space3 a b c) eqn:E3; [|done]. intros [= <-].
    apply is_space3_bytes in E3 as (Ha & Hb & Hc).
    exists (String c (String b (String a ""))). cbn [str_all].
    by rewrite Ha, Hb, Hc.
Qed.

Lemma strip_while_prefix (step : string → option string) :
  (∀ s r, step s = Some r → ∃ p, s = p +:+ r ∧ str_all strip_byte p = true) →
  ∀ fuel s, ∃ p, s = p +:+ strip_while step fuel s ∧ str_all strip_byte p = true.
Proof.
  intros Hstep fuel. induction fuel as [|fuel IH]; intros s.
  - by exists "".
  - cbn [strip_while]. destruct (step s) as [r|] eqn:Er; [|by exists ""].
    destruct (Hstep _ _ Er) as (p1 & -> & Hp1).
    destruct (IH r) as (p2 & Hr & Hp2).
    exists (p1 +:+ p2). split.
    + rewrite str_app_assoc. by rewrite <- Hr.
    + by rewrite str_all_app, Hp1, Hp2.
Qed.

(** What [strip()] removes, at either end, are whitespace bytes. *)
Lemma py_strip_inside (s : string) :
  ∃ p1 p2, s = p1 +:+ py_strip s +:+ p2 ∧
           str_all strip_byte p1 = true ∧ str_all strip_byte p2 = true.
Proof.
  unfold py_strip.
  destruct (strip_while_prefix _ space_at_head_prefix (String.length s) s)
    as (p1 & Hl & Hp1).
  fold (py_lstrip s) in Hl.
  destruct (strip_while_prefix _ space_at_end_prefix
              (String.length (py_lstrip s)) (String.rev (py_lstrip s)))
    as (p2 & Hr & Hp2).
  apply (f_equal String.rev) in Hr.
  rewrite rev_involutive, rev_app_distr in Hr.
  fold (py_rstrip (py_lstrip s)) in Hr.
  exists p1, (String.rev p2). split; [|split].
  - by rewrite <- Hr.
  - done.
  - by rewrite str_all_rev.
Qed.

Lemma strip_byte_not_bracket (a : ascii) :
  strip_byte a = true → a ≠ lbracket ∧ a ≠ rbracket.
Proof. intros Ha. split; intros ->; by vm_compute in Ha. Qed.

Lemma bracket_span_drop_prefix (p s : string) :
  str_all strip_byte p = true → bracket_span (p +:+ s) = bracket_span s.
Proof.
  induction p as [|a p IH]; [done|].
  cbn [str_all]. intros [Ha Hp]%andb_true_iff.
  rewrite str_app_cons, bracket_span_skip; [by apply IH|].
  by apply strip_byte_not_bracket.
Qed.

Lemma str_rfind_snoc (c a : ascii) (s : string) :
  a ≠ c → str_rfind c (s +:+ String a "") = str_rfind c s.
Proof.
  intros Hne. induction s as [|b s IH].
  - rewrite str_app_nil_l. cbn [str_rfind]. by rewrite decide_False.
  - rewrite str_app_cons. cbn [str_rfind]. by rewrite IH.
Qed.

Lemma str_rfind_lt (c : ascii) (s : string) (j : nat) :
  str_rfind c s = Some j → j < String.length s.
Proof.
  revert j. induction s as [|a s IH]; intros j; [done|].
  cbn [str_rfind String.length].
  destruct (str_rfind c s) as [j'|].
  - intros [= <-]. specialize (IH j' eq_refl). lia.
  - case_decide; [|done]. intros [= <-]. lia.
Qed.

Lemma str_take_app (n : nat) (s t : string) :
  n ≤ String.length s → str_take n (s +:+ t) = str_take n s.
Proof.
  revert n. induction s as [|a s IH]; intros [|n]; cbn [String.length];
    try done; try lia.
  intros Hn. rewrite str_app_cons. cbn [str_take]. rewrite IH; [done|lia].
Qed.

Lemma bracket_span_snoc (s : string) (a : ascii) :
  a ≠ rbracket → bracket_span (s +:+ String a "") = bracket_span s.
Proof.
  intros Ha. induction s as [|b s IH].
  - rewrite str_app_nil_l. unfold bracket_span. cbn [str_find str_rfind].
    rewrite (decide_False (P := a = rbracket)) by done.
    by case_decide.
  - destruct (decide (b = lbracket)) as [->|Hb].
    + rewrite str_app_cons. unfold bracket_span. cbn [str_find str_rfind].
      rewrite !(decide_True (P := lbracket = lbracket)) by done.
      rewrite str_rfind_snoc by done.
      destruct (str_rfind rbracket s) as [j|] eqn:Ej; [|done].
      cbn [mbind option_bind]. rewrite !(decide_True (P := 0 < S j)) by lia.
      unfold str_slice. cbn [str_drop]. f_equal.
      apply str_rfind_lt in Ej.
      replace (S (S j) - 0) with (S (S j)) by lia.
      rewrite <- str_app_cons. apply str_take_app. cbn [String.length]. lia.
    + rewrite str_app_cons, !bracket_span_skip by done. apply IH.
Qed.

Lemma bracket_span_drop_suffix (p s : string) :
  str_all strip_byte p = true → bracket_span (s +:+ p) = bracket_span s.
Proof.
  revert s. induction p as [|a p IH]; intros s.
  - by rewrite str_app_nil_r.
  - cbn [str_all]. intros [Ha Hp]%andb_true_iff.
    change (String a p) with (String a "" +:+ p).
    rewrite <- str_app_assoc, IH by done.
    apply bracket_span_snoc. by apply strip_byte_not_bracket.
Qed.

(** The span from the first [[] to the last []] is the same in a completion
    and in the completion stripped. *)
Lemma bracket_span_strip (s : string) :
  bracket_span (py_strip s) = bracket_span s.
Proof.
  destruct (py_strip_inside s) as (p1 & p2 & Hs & Hp1 & Hp2).
  rewrite Hs at 2.
  by rewrite bracket_span_drop_prefix, bracket_span_drop_suffix.
Qed.








(** ** The reference decoder keeps the decoder's contract *)

Lemma lex_lbracket (fuel : nat) (s : string) :
  RefJson.lex (S fuel) (String lbracket s)
  = (RefJson.TLBracket ::.) <$> RefJson.lex fuel s.
Proof. reflexivity. Qed.

Lemma lex_lbrace (fuel : nat) (s : string) :
  RefJson.lex (S fuel) (String lbrace s)
  = (RefJson.TLBrace ::.) <$> RefJson.lex fuel s.
Proof. reflexivity. Qed.

Lemma parse_value_lbracket fuel ts v r :
  RefJson.parse_value fuel (RefJson.TLBracket :: ts) = Some (v, r) →
  ∃ l, v = PList l.
Proof.
  destruct fuel as [|fuel]; [done|]. cbn [RefJson.parse_value].
  intros Hv.
  destruct ts as [|t ts]; [|destruct t];
    first [ by simplify_eq; eauto
          | match type of Hv with
            | ?X ≫= _ = _ => destruct X as [[??]|]; simplify_eq/=; eauto
            end ].
Qed.

Lemma parse_value_lbrace fuel ts v r :
  RefJson.parse_value fuel (RefJson.TLBrace :: ts) = Some (v, r) →
  ∃ d, v = PDict d.
Proof.
  destruct fuel as [|fuel]; [done|]. cbn [RefJson.parse_value].
  intros Hv.
  destruct ts as [|t ts]; [|destruct t];
    first [ by simplify_eq; eauto
          | match type of Hv with
            | ?X ≫= _ = _ => destruct X as [[??]|]; simplify_eq/=; eauto
            end ].
Qed.

Lemma ref_json_contract : decoder_contract ref_json.
Proof.
  intros s. cbn [json_loads ref_json]. unfold RefJson.loads.
  destruct (RefJson.lex _ s) as [ts|] eqn:Elex; [|done].
  destruct (RefJson.parse_value _ ts) as [[v r]|] eqn:E; [|done].
  destruct r; [|done].
  split; intros t ->.
  - cbn [String.length] in Elex. rewrite lex_lbracket in Elex.
    destruct (RefJson.lex _ t) as [ts'|]; [|done].
    injection Elex as <-. by eapply parse_value_lbracket.
  - cbn [String.length] in Elex. rewrite lex_lbrace in Elex.
    destruct (RefJson.lex _ t) as [ts'|]; [|done].
    injection Elex as <-. by eapply parse_value_lbrace.
Qed.

(** ** The extractors *)

Section Extractors.
Context {dec : JsonDecoder}.

(** The array extractor decodes the bracket span of what it is given. *)
Lemma array_extractor_on_span (response : string) :
  Hermes.parse_json_array response
  = match bracket_span response with
    | Some span =>
        try_except_decode_error
          (result_bind (json_loads span) (λ v, Ok (Returned v)))
          (Ok (PList []))
    | None => Ok (PList [])
    end.
Proof.
  rewrite <- search_array_re. unfold Hermes.parse_json_array.
  by destruct (re_search array_re response).
Qed.

(** C1.  Array extractor round trip: when the span of the completion from
    its first [[] to its last []] decodes as JSON, lines 98-107 of
    [_parse_internal] return exactly the decoded value, on the completion
    as it is and on the completion stripped, which is what the code gives
    them. *)
Theorem array_extractor_round_trip (text span : string) (v : pyval) :
  bracket_span text = Some span →
  json_loads span = Ok v →
  Hermes.parse_json_array text = Ok v ∧
  Hermes.parse_json_array (py_strip text) = Ok v.
Proof.
  intros Hspan Hv.
  rewrite !array_extractor_on_span, bracket_span_strip, Hspan.
  cbn [try_except_decode_error]. by rewrite Hv.
Qed.



(** C5, as the code has it.  The span [parse_intent] hands to the decoder
    starts at the first [{] that is followed by a character other than [}]
    and ends at the first [}] after it, whether or not a backslash precedes
    that [}]; a [{] directly followed by [}] is passed over.  When there is
    no such span nothing is decoded and the fallback is returned. *)
Theorem object_extractor_span (response : string) :
  m_group <$> re_search object_re response = nonempty_brace_span response ∧
  Atlas.parse_json_object response
  = match nonempty_brace_span response with
    | Some span =>
        try_except_decode_error
          (result_bind (json_loads span) (λ parsed,
           result_bind (Atlas.intent_result response parsed) (λ r,
           Ok (Returned r))))
          (Ok (Atlas.fallback response))
    | None => Ok (Atlas.fallback response)
    end.
Proof.
  split; [apply search_object_re|].
  rewrite <- search_object_re. unfold Atlas.parse_json_object.
  by destruct (re_search object_re response).
Qed.

(** C6, as the code has it.  On success the array extractor returns the
    decoded array as it is: as many elements, each one unchanged, so an
    object keeps every field it had, inside the ExtractedJob shape or not,
    and gains none. *)
Theorem array_extractor_keeps_elements
    (response span : string) (elems : list pyval) :
  bracket_span response = Some span →
  json_loads span = Ok (PList elems) →
  ∃ jobs,
    Hermes.parse_json_array response = Ok (PList jobs) ∧
    length jobs = length elems ∧
    (∀ i v, elems !! i = Some v → jobs !! i = Some v) ∧
    (∀ i d, elems !! i = Some (PDict d) →
       ∃ d', jobs !! i = Some (PDict d') ∧ ∀ k, d' !! k = d !! k).
Proof.
  intros Hspan Hv. rewrite <- search_array_re in Hspan.
  apply search_group in Hspan as (m & Hm & <-).
  exists elems. unfold Hermes.parse_json_array. rewrite Hm.
  cbn [try_except_decode_error]. rewrite Hv. naive_solver.
Qed.

(** A completion without any [{] gets the fallback. *)
Lemma object_extractor_no_brace (response : string) :
  str_find lbrace response = None →
  Atlas.parse_json_object response = Ok (Atlas.fallback response).
Proof.
  intros Hno.
  assert (find_open_brace response = None) as E.
  { induction response as [|a s IH]; [done|].
    cbn [str_find] in Hno. cbn [find_open_brace].
    destruct (decide (a = lbrace)); [done|].
    destruct (str_find lbrace s); [done|]. by rewrite IH. }
  pose proof (search_object_re response) as Hs.
  unfold nonempty_brace_span in Hs. rewrite E in Hs.
  unfold Atlas.parse_json_object. by rewrite (search_none _ _ Hs).
Qed.

End Extractors.

(** *** Concrete completions *)

Lemma array_extractor_round_trip_witness :
  @Hermes.parse_json_array ref_json two_numbers = Ok (PList [PInt 1; PInt 2]) ∧
  @Hermes.parse_json_array ref_json (py_strip two_numbers)
  = Ok (PList [PInt 1; PInt 2]).
Proof.
  apply (@array_extractor_round_trip ref_json two_numbers "[1, 2]").
  - vm_compute. reflexivity.
  - vm_compute. reflexivity.
Defined.





(** C5, as the specification states it, fails on the completion [{}]: the
    span from the first [{] to the first unescaped [}] is [{}], which
    decodes to the empty object, but the scan of the code selects nothing
    and the fallback is returned.  It fails on an escaped brace too: the
    scan stops at the [}] that follows the backslash. *)
Lemma empty_object_not_selected :
  first_brace_span "{}" = Some "{}" ∧
  m_group <$> re_search object_re "{}" = None ∧
  @json_loads ref_json "{}" = Ok (PDict ∅) ∧
  @Atlas.parse_json_object ref_json "{}" = Ok (Atlas.fallback "{}") ∧
  first_brace_span "{a\}b}" = Some "{a\}b}" ∧
  m_group <$> re_search object_re "{a\}b}" = Some "{a\}".
Proof. repeat split; vm_compute; reflexivity. Qed.

(** C6, as the specification states it, fails on a completion whose object
    has a field outside the ExtractedJob shape: the field comes back. *)
Lemma extra_field_is_kept :
  @Hermes.parse_json_array ref_json priced_job
  = Ok (PList [PDict {[ "origin" := PStr "A"; "price" := PInt 5 ]}]) ∧
  ¬ Forall job_shaped [PDict {[ "origin" := PStr "A"; "price" := PInt 5 ]}].
Proof.
  split; [vm_compute; reflexivity|].
  intros Hall. apply Forall_cons in Hall as [(d & Hd & Hdom) _].
  injection Hd as <-.
  assert ("price" ∈ job_fields) as Hin.
  { apply Hdom, elem_of_dom. eexists. by vm_compute. }
  revert Hin. apply (proj1 (bool_decide_eq_false _)).
  vm_compute. reflexivity.
Qed.

Lemma array_extractor_keeps_elements_witness :
  ∃ jobs,
    @Hermes.parse_json_array ref_json priced_job = Ok (PList jobs) ∧
    length jobs = 1 ∧
    (∀ i v, [PDict {[ "origin" := PStr "A"; "price" := PInt 5 ]}] !! i = Some v →
       jobs !! i = Some v) ∧
    (∀ i d, [PDict {[ "origin" := PStr "A"; "price" := PInt 5 ]}] !! i
            = Some (PDict d) →
       ∃ d', jobs !! i = Some (PDict d') ∧ ∀ k, d' !! k = d !! k).
Proof.
  apply (@array_extractor_keeps_elements ref_json priced_job priced_job
           [PDict {[ "origin" := PStr "A"; "price" := PInt 5 ]}]).
  - vm_compute. reflexivity.
  - vm_compute. reflexivity.
Defined.

(** ** The prompt assembler *)

Lemma mk_msg_role (r c : string) : mk_msg r c !! "role" = Some r.
Proof. unfold mk_msg. apply lookup_insert_eq. Qed.

Lemma mk_msg_content (r c : string) : mk_msg r c !! "content" = Some c.
Proof.
  unfold mk_msg. rewrite lookup_insert_ne by done. apply lookup_singleton_eq.
Qed.

Lemma hermes_format_step_turn (formatted : string) (t : ConversationTurn) :
  Hermes.format_step formatted (turn_msg t) = formatted +:+ block t.
Proof.
  unfold Hermes.format_step, turn_msg, block.
  rewrite mk_msg_role, mk_msg_content. by destruct (turn_role t).
Qed.

Lemma atlas_format_step_turn (formatted : string) (t : ConversationTurn) :
  Atlas.format_step formatted (turn_msg t) = formatted +:+ block t.
Proof.
  unfold Atlas.format_step, turn_msg, block.
  rewrite mk_msg_role, mk_msg_content. by destruct (turn_role t).
Qed.

Lemma fold_format_turns (step : string → msg → string) :
  (∀ formatted t, step formatted (turn_msg t) = formatted +:+ block t) →
  ∀ turns formatted,
    fold_left step (turn_msg <$> turns) formatted
    = formatted +:+ str_concat (block <$> turns).
Proof.
  intros Hstep turns.
  induction turns as [|t turns IH]; intros formatted; cbn [fmap list_fmap fold_left str_concat].
  - by rewrite str_app_nil_r.
  - rewrite Hstep, IH. apply str_app_assoc.
Qed.

(** C4.  Prompt assembler: for N turns with roles among system, user and
    assistant, both formatters return the N role-delimited blocks, each
    with its turn's content verbatim and in the order of the input, followed
    by the one opening assistant marker and nothing after it; for no turn
    at all that is the marker alone. *)
Theorem prompt_assembler_blocks (turns : list ConversationTurn) :
  Atlas._format_messages (turn_msg <$> turns)
  = str_concat (block <$> turns) +:+ assistant_marker ∧
  Hermes._format_messages (turn_msg <$> turns)
  = str_concat (block <$> turns) +:+ assistant_marker ∧
  length (block <$> turns) = length turns ∧
  (∀ i t, turns !! i = Some t → (block <$> turns) !! i = Some (block t)) ∧
  Atlas._format_messages [] = assistant_marker ∧
  Hermes._format_messages [] = assistant_marker.
Proof.
  split; [|split; [|split; [|split; [|split]]]].
  - unfold Atlas._format_messages.
    by rewrite (fold_format_turns _ atlas_format_step_turn).
  - unfold Hermes._format_messages.
    by rewrite (fold_format_turns _ hermes_format_step_turn).
  - apply length_fmap.
  - intros i t Ht. by rewrite list_lookup_fmap, Ht.
  - reflexivity.
  - reflexivity.
Qed.

Lemma format_steps_agree (messages : list msg) (formatted : string) :
  fold_left Atlas.format_step messages formatted
  = fold_left Hermes.format_step messages formatted.
Proof.
  revert formatted.
  induction messages as [|m messages IH]; intros formatted; [reflexivity|].
  cbn [fold_left]. rewrite IH. f_equal.
Qed.

(** C10.  The formatter of serve.py and the formatter of hermes.py return
    the same string on every list of messages. *)
Theorem formatters_agree (messages : list msg) :
  Atlas._format_messages messages = Hermes._format_messages messages.
Proof.
  unfold Atlas._format_messages, Hermes._format_messages.
  by rewrite format_steps_agree.
Qed.

(** A message whose role is none of the three adds nothing, and a message
    without a role counts as the user's. *)
Lemma format_step_other_role (formatted r c : string) :
  r ≠ "system" → r ≠ "user" → r ≠ "assistant" →
  Hermes.format_step formatted (mk_msg r c) = formatted.
Proof.
  intros ???. unfold Hermes.format_step. rewrite mk_msg_role. cbn [default].
  by repeat case_decide.
Qed.

Lemma format_step_no_role (formatted c : string) :
  Hermes.format_step formatted {[ "content" := c ]}
  = formatted +:+ ("<|im_start|>user" +:+ nl +:+ c +:+ "<|im_end|>" +:+ nl).
Proof.
  unfold Hermes.format_step.
  by rewrite lookup_singleton_ne, lookup_singleton_eq.
Qed.

(** The two system prompts have the lengths, in bytes of UTF-8, of the
    literals of the source. *)
Example system_prompt_lengths :
  String.length Hermes.SYSTEM_PROMPT = 418 ∧
  String.length Atlas.system_prompt = 1609.
Proof. split; vm_compute; reflexivity. Qed.

(** ** The endpoints of hermes.py *)

Section HermesEndpoints.
Context {dec : JsonDecoder} {eng : InferenceEngine}.

Lemma array_group_opens (s : string) (m : Match) :
  re_search array_re s = Some m → ∃ t, m_group m = String lbracket t.
Proof.
  revert m. induction s as [|a s IH]; intros m; [done|].
  cbn [re_search]. rewrite match_at_array_re.
  destruct (decide (a = lbracket)) as [->|Ha].
  - destruct (str_rfind rbracket s) as [j|]; cbn [fmap option_fmap option_map].
    + intros [= <-]. by eexists.
    + destruct (re_search array_re s) as [m'|]; [|done].
      intros [= <-]. apply (IH m' eq_refl).
  - destruct (re_search array_re s) as [m'|]; [|done].
    intros [= <-]. apply (IH m' eq_refl).
Qed.

(** Under the decoder's contract the array extractor always returns a
    list. *)
Lemma parse_json_array_list (response : string) :
  decoder_contract dec →
  ∃ jobs, Hermes.parse_json_array response = Ok (PList jobs).
Proof.
  intros Hdec. unfold Hermes.parse_json_array.
  destruct (re_search array_re response) as [m|] eqn:Hm; [|by eexists].
  destruct (array_group_opens _ _ Hm) as [t Ht].
  specialize (Hdec (m_group m)).
  destruct (json_loads (m_group m)) as [v|e]; cbn.
  - destruct Hdec as [Hlist _]. destruct (Hlist t Ht) as [l ->]. by eexists.
  - subst e. by eexists.
Qed.

Lemma parse_internal_run (m : string) (w : world) (text : string) e :
  llm_generate (w_engine w) (hermes_prompt m) Hermes.sampling_params None
  = (text, e) →
  Hermes._parse_internal m w
  = (Hermes.parse_json_array (py_strip text),
     {| w_engine := e; w_calls := w_calls w ++ [hermes_call m] |}).
Proof.
  intros Hgen. unfold Hermes._parse_internal, bind, generate, lift.
  unfold hermes_prompt in Hgen. by rewrite Hgen.
Qed.

(** Under the decoder's contract every completion is decoded to a list or
    rejected. *)
Lemma contract_decodes_or_rejects (text : string) :
  decoder_contract dec → decodes_or_rejects text.
Proof.
  intros Hdec span Hspan. rewrite <- search_array_re in Hspan.
  apply search_group in Hspan as (m & Hm & <-).
  destruct (array_group_opens _ _ Hm) as [t Ht].
  specialize (Hdec (m_group m)).
  destruct (json_loads (m_group m)) as [v|e].
  - right. destruct Hdec as [Hlist _]. destruct (Hlist t Ht) as [l ->].
    by eexists.
  - left. by subst e.
Qed.




Lemma batch_step_run (results : list pyval) (m : string) (w : world)
    (text : string) e (jobs : list pyval) :
  llm_generate (w_engine w) (hermes_prompt m) Hermes.sampling_params None
  = (text, e) →
  Hermes.parse_json_array (py_strip text) = Ok (PList jobs) →
  Hermes.batch_step results m w
  = (Ok (results ++ [batch_entry m jobs]),
     {| w_engine := e; w_calls := w_calls w ++ [hermes_call m] |}).
Proof.
  intros Hgen Hjobs. unfold Hermes.batch_step, bind.
  by rewrite (parse_internal_run _ _ _ _ Hgen), Hjobs.
Qed.





Lemma batch_entry_count (m : string) (jobs : list pyval) :
  py_getitem (batch_entry m jobs) "count"
  = Ok (PInt (Z.of_nat (length jobs))).
Proof. reflexivity. Qed.

Lemma gen_counts (msgs : list string) (jobss : list (list pyval)) :
  py_gen (λ r, py_getitem r "count") (zip_with batch_entry msgs jobss)
  = Ok ((λ r, PInt (Z.of_nat (length r))) <$> zip_with (λ _ jobs, jobs) msgs jobss).
Proof.
  revert jobss. induction msgs as [|m msgs IH]; intros [|jobs jobss]; try done.
  cbn [zip_with py_gen]. rewrite batch_entry_count. cbn [result_bind].
  by rewrite IH.
Qed.

Lemma sum_counts (acc : Z) (jobss : list (list pyval)) :
  py_sum_from (PInt acc) ((λ r, PInt (Z.of_nat (length r))) <$> jobss)
  = Ok (PInt (acc + Z.of_nat (sum_list (length <$> jobss)))).
Proof.
  revert acc. induction jobss as [|jobs jobss IH]; intros acc.
  - cbn. by rewrite Z.add_0_r.
  - cbn [fmap list_fmap py_sum_from py_add result_bind sum_list sum_list_with].
    rewrite IH. do 2 f_equal. unfold id. lia.
Qed.

Lemma zip_with_snd_same_length {A B} (xs : list A) (ys : list B) :
  length xs = length ys → zip_with (λ _ y, y) xs ys = ys.
Proof.
  revert ys. induction xs as [|x xs IH]; intros [|y ys]; try done.
  cbn. intros [= Hlen]. by rewrite IH.
Qed.

Lemma batch_completions_length (msgs : list string) e :
  length (batch_completions msgs e).1 = length msgs.
Proof.
  revert e. induction msgs as [|m msgs IH]; intros e; [done|].
  cbn [batch_completions].
  destruct (llm_generate _ _ _ _) as [text e1].
  specialize (IH e1). destruct (batch_completions msgs e1) as [texts e2].
  cbn in *. by rewrite IH.
Qed.


End HermesEndpoints.

(** ** The intent endpoint of serve.py *)

Section AtlasEndpoints.
Context {dec : JsonDecoder} {eng : InferenceEngine}.

Lemma append_each {A} (xs ms : list A) :
  fold_left (λ ms m, ms ++ [m]) xs ms = ms ++ xs.
Proof.
  revert ms. induction xs as [|x xs IH]; intros ms; cbn [fold_left].
  - by rewrite app_nil_r.
  - rewrite IH. by rewrite <- app_assoc.
Qed.

Lemma llm_call_run (self : Atlas.AtlasModel) (prompt : string)
    (params : SamplingParams) (w : world) :
  Atlas.llm_call self prompt params w
  = generate prompt params (Atlas.lora_request self) w.
Proof. unfold Atlas.llm_call. by destruct (Atlas.lora_request self). Qed.

(** C9.  [parse_intent] on a non-empty message: the conversation sent to
    the model is the system prompt, then the last min(4, n) of the n
    history turns in their order, then the message as a user turn; the
    earlier turns are left out. *)
Theorem parse_intent_history
    (self : Atlas.AtlasModel) (request : Atlas.IntentRequest)
    (m : string) (w : world) :
  Atlas.pi_message request = Some m →
  m ≠ "" →
  let history := default [] (Atlas.pi_history request) in
  let recent := drop (length history - 4) history in
  let conversation :=
    mk_msg "system" Atlas.system_prompt :: recent ++ [mk_msg "user" m] in
  length recent = 4 `min` length history ∧
  (∃ older, history = older ++ recent) ∧
  Atlas.intent_messages m history = conversation ∧
  ∃ text e,
    llm_generate (w_engine w) (Atlas._format_messages conversation)
      Atlas.json_params (Atlas.lora_request self) = (text, e) ∧
    Atlas.parse_intent self request w
    = (Atlas.parse_json_object (py_strip text),
       {| w_engine := e;
          w_calls := w_calls w ++
            [{| c_prompt := Atlas._format_messages conversation;
                c_params := Atlas.json_params;
                c_lora := Atlas.lora_request self |}] |}).
Proof.
  intros Hm Hne history recent conversation.
  assert (Atlas.intent_messages m history = conversation) as Hconv.
  { unfold Atlas.intent_messages, py_last. by rewrite append_each. }
  split; [|split; [|split; [done|]]].
  - subst recent. rewrite length_drop. lia.
  - exists (take (length history - 4) history).
    subst recent. by rewrite take_drop.
  - destruct (llm_generate (w_engine w) (Atlas._format_messages conversation)
                Atlas.json_params (Atlas.lora_request self))
      as [text e] eqn:Hgen.
    exists text, e. split; [done|].
    unfold Atlas.parse_intent. rewrite Hm.
    change (default "" (Some m)) with m. rewrite decide_False by done.
    fold history. rewrite Hconv.
    unfold bind. rewrite llm_call_run. unfold generate. rewrite Hgen.
    reflexivity.
Qed.

End AtlasEndpoints.

(** *** The endpoints on concrete requests *)





(** The batch of the specification's example, run: one job for the first
    message, none for the second, and a total of one. *)
Example parse_batch_example :
  (@Hermes.parse_batch ref_json scripted
     {| Hermes.pb_messages := Some ["A--B TIR"; ""] |}
     (scripted_world [one_job; "Yok."])).1
  = Ok (PDict
      {[ "success" := PBool true;
         "results" := PList
           [batch_entry "A--B TIR"
              [PDict {[ "origin" := PStr "A"; "destination" := PStr "B";
                        "vehicle_type" := PStr "TIR" ]}];
            batch_entry "" []];
         "total_jobs" := PInt 1 ]}).
Proof. vm_compute. reflexivity. Qed.

Lemma parse_intent_history_witness :
  let history := six_turns in
  let recent := drop (length history - 4) history in
  let conversation :=
    mk_msg "system" Atlas.system_prompt :: recent ++ [mk_msg "user" "ankara"] in
  length recent = 4 `min` length history ∧
  (∃ older, history = older ++ recent) ∧
  Atlas.intent_messages "ankara" history = conversation ∧
  ∃ text e,
    @llm_generate scripted (w_engine (scripted_world ["{}"]))
      (Atlas._format_messages conversation)
      Atlas.json_params (Atlas.lora_request plain_model) = (text, e) ∧
    @Atlas.parse_intent ref_json scripted plain_model
      {| Atlas.pi_message := Some "ankara"; Atlas.pi_history := Some six_turns |}
      (scripted_world ["{}"])
    = (@Atlas.parse_json_object ref_json (py_strip text),
       {| w_engine := e;
          w_calls := w_calls (scripted_world ["{}"]) ++
            [{| c_prompt := Atlas._format_messages conversation;
                c_params := Atlas.json_params;
                c_lora := Atlas.lora_request plain_model |}] |}).
Proof.
  apply (@parse_intent_history ref_json scripted plain_model
           {| Atlas.pi_message := Some "ankara";
              Atlas.pi_history := Some six_turns |}
           "ankara" (scripted_world ["{}"])).
  - reflexivity.
  - discriminate.
Defined.

(** Of six turns of history the first two are left out. *)
Example parse_intent_history_example :
  Atlas.intent_messages "ankara" six_turns
  = [mk_msg "system" Atlas.system_prompt;
     mk_msg "user" "c"; mk_msg "assistant" "d";
     mk_msg "user" "e"; mk_msg "assistant" "f";
     mk_msg "user" "ankara"].
Proof. reflexivity. Qed.

(* ------------------------------------------------------------------ *)
(** * Further properties of the code *)

(** ** The formatters on arbitrary messages *)

Lemma str_concat_app (xs ys : list string) :
  str_concat (xs ++ ys) = str_concat xs +:+ str_concat ys.
Proof.
  induction xs as [|x xs IH]; [reflexivity|].
  cbn [app str_concat]. by rewrite IH, str_app_assoc.
Qed.

Lemma format_step_render (formatted : string) (m : msg) :
  Hermes.format_step formatted m = formatted +:+ render m.
Proof.
  unfold Hermes.format_step, render, known_role. cbv zeta.
  generalize (default "user" (m !! "role")) as role.
  generalize (default "" (m !! "content")) as content.
  intros content role.
  destruct (decide (role = "system")) as [->|H1]; [reflexivity|].
  rewrite (bool_decide_false (role = "system")) by done.
  destruct (decide (role = "user")) as [->|H2]; [reflexivity|].
  rewrite (bool_decide_false (role = "user")) by done.
  destruct (decide (role = "assistant")) as [->|H3]; [reflexivity|].
  rewrite (bool_decide_false (role = "assistant")) by done.
  cbn [orb]. by rewrite str_app_nil_r.
Qed.

Lemma fold_format_render (msgs : list msg) (formatted : string) :
  fold_left Hermes.format_step msgs formatted
  = formatted +:+ str_concat (render <$> msgs).
Proof.
  revert formatted. induction msgs as [|m msgs IH]; intros formatted;
    cbn [fold_left fmap list_fmap str_concat].
  - by rewrite str_app_nil_r.
  - rewrite IH, format_step_render. apply str_app_assoc.
Qed.

(** Both formatters, on any list of dicts: what each message adds, then
    the assistant marker. *)
Lemma format_messages_render (msgs : list msg) :
  Hermes._format_messages msgs
  = str_concat (render <$> msgs) +:+ assistant_marker ∧
  Atlas._format_messages msgs
  = str_concat (render <$> msgs) +:+ assistant_marker.
Proof.
  assert (Hermes._format_messages msgs
          = str_concat (render <$> msgs) +:+ assistant_marker) as HH.
  { unfold Hermes._format_messages. by rewrite fold_format_render. }
  split; [done|].
  unfold Atlas._format_messages. rewrite format_steps_agree.
  by rewrite fold_format_render.
Qed.

Lemma render_unknown (m : msg) : known_role m = false → render m = "".
Proof. unfold render. by intros ->. Qed.

Lemma str_concat_render_filter (msgs : list msg) :
  str_concat (render <$> filter (λ m, known_role m) msgs)
  = str_concat (render <$> msgs).
Proof.
  induction msgs as [|m msgs IH]; [reflexivity|].
  rewrite filter_cons. destruct (known_role m) eqn:Hk.
  - rewrite decide_True by done. cbn [fmap list_fmap str_concat].
    by rewrite IH.
  - rewrite decide_False by (by intros ?). cbn [fmap list_fmap str_concat].
    by rewrite IH, render_unknown.
Qed.

(** X1.  Messages whose role is none of system, user and assistant leave
    no trace in the prompt: either formatter returns the same string
    without them. *)
Theorem unknown_roles_leave_no_trace (msgs : list msg) :
  Hermes._format_messages (filter (λ m, known_role m) msgs)
  = Hermes._format_messages msgs ∧
  Atlas._format_messages (filter (λ m, known_role m) msgs)
  = Atlas._format_messages msgs.
Proof.
  destruct (format_messages_render msgs) as [-> ->].
  destruct (format_messages_render (filter (λ m, known_role m) msgs))
    as [-> ->].
  by rewrite str_concat_render_filter.
Qed.

Lemma render_mk_msg_assistant (c : string) :
  render (mk_msg "assistant" c)
  = "<|im_start|>assistant" +:+ nl +:+ c +:+ "<|im_end|>" +:+ nl.
Proof.
  unfold render, known_role. by rewrite mk_msg_role, mk_msg_content.
Qed.

Lemma render_mk_msg_user (c : string) :
  render (mk_msg "user" c)
  = "<|im_start|>user" +:+ nl +:+ c +:+ "<|im_end|>" +:+ nl.
Proof.
  unfold render, known_role. by rewrite mk_msg_role, mk_msg_content.
Qed.

Lemma render_mk_msg_system (c : string) :
  render (mk_msg "system" c)
  = "<|im_start|>system" +:+ nl +:+ c +:+ "<|im_end|>" +:+ nl.
Proof.
  unfold render, known_role. by rewrite mk_msg_role, mk_msg_content.
Qed.

(** X2.  The prompt is a prefix of the next prompt: once the model's answer
    is appended to the conversation as an assistant turn, the new prompt is
    the old one, the answer, the closing marker and a fresh assistant
    marker. *)
Theorem prompt_extends_with_answer (msgs : list msg) (answer : string) :
  Hermes._format_messages (msgs ++ [mk_msg "assistant" answer])
  = Hermes._format_messages msgs +:+ answer +:+ "<|im_end|>" +:+ nl
    +:+ assistant_marker ∧
  Atlas._format_messages (msgs ++ [mk_msg "assistant" answer])
  = Atlas._format_messages msgs +:+ answer +:+ "<|im_end|>" +:+ nl
    +:+ assistant_marker.
Proof.
  destruct (format_messages_render msgs) as [-> ->].
  destruct (format_messages_render (msgs ++ [mk_msg "assistant" answer]))
    as [-> ->].
  rewrite fmap_app, str_concat_app. cbn [fmap list_fmap str_concat].
  rewrite render_mk_msg_assistant, str_app_nil_r.
  unfold assistant_marker. by rewrite !str_app_assoc.
Qed.

(** X3.  The formatters do not escape the markers: a user turn whose
    content holds a closing marker and an opening system marker gives the
    same prompt as a user turn followed by a system turn. *)
Theorem markers_are_not_escaped (before after : list msg) (a b : string) :
  Hermes._format_messages
    (before ++
     [mk_msg "user"
        (a +:+ "<|im_end|>" +:+ nl +:+ "<|im_start|>system" +:+ nl +:+ b)]
     ++ after)
  = Hermes._format_messages
      (before ++ [mk_msg "user" a; mk_msg "system" b] ++ after) ∧
  Atlas._format_messages
    (before ++
     [mk_msg "user"
        (a +:+ "<|im_end|>" +:+ nl +:+ "<|im_start|>system" +:+ nl +:+ b)]
     ++ after)
  = Atlas._format_messages
      (before ++ [mk_msg "user" a; mk_msg "system" b] ++ after).
Proof.
  assert (str_concat (render <$> before ++
            [mk_msg "user"
               (a +:+ "<|im_end|>" +:+ nl +:+ "<|im_start|>system" +:+ nl +:+ b)]
            ++ after)
          = str_concat (render <$> before ++
              [mk_msg "user" a; mk_msg "system" b] ++ after)) as E.
  { rewrite !fmap_app, !str_concat_app. f_equal.
    cbn [fmap list_fmap str_concat].
    rewrite !render_mk_msg_user, render_mk_msg_system.
    rewrite !str_app_nil_r, !str_app_assoc. reflexivity. }
  split.
  - destruct (format_messages_render (before ++
      [mk_msg "user"
         (a +:+ "<|im_end|>" +:+ nl +:+ "<|im_start|>system" +:+ nl +:+ b)]
      ++ after)) as [-> _].
    destruct (format_messages_render
      (before ++ [mk_msg "user" a; mk_msg "system" b] ++ after)) as [-> _].
    by rewrite E.
  - destruct (format_messages_render (before ++
      [mk_msg "user"
         (a +:+ "<|im_end|>" +:+ nl +:+ "<|im_start|>system" +:+ nl +:+ b)]
      ++ after)) as [_ ->].
    destruct (format_messages_render
      (before ++ [mk_msg "user" a; mk_msg "system" b] ++ after)) as [_ ->].
    by rewrite E.
Qed.

(** ** [strip()] trims *)








(** ** The endpoints of serve.py *)

Section AtlasMore.
Context {dec : JsonDecoder} {eng : InferenceEngine}.

Lemma generate_run (self : Atlas.AtlasModel) (messages : list msg)
    (w : world) (text : string) e :
  llm_generate (w_engine w) (Atlas._format_messages messages)
    (Atlas.sampling_params self) (Atlas.lora_request self) = (text, e) →
  Atlas._generate self messages w
  = (Ok (py_strip text),
     {| w_engine := e;
        w_calls := w_calls w ++
          [{| c_prompt := Atlas._format_messages messages;
              c_params := Atlas.sampling_params self;
              c_lora := Atlas.lora_request self |}] |}).
Proof.
  intros Hgen. unfold Atlas._generate, bind. rewrite llm_call_run.
  unfold generate, ret. by rewrite Hgen.
Qed.

(** X4.  [chat]: a request whose messages are absent or empty gets the
    error value and the engine is not called; otherwise the engine is
    called once, with the prompt of the messages, the default sampling
    parameters of the model and its adapter, and the answer carries the
    completion stripped as the content of the one choice. *)
Theorem chat_validation
    (self : Atlas.AtlasModel) (request : Atlas.ChatRequest) (w : world) :
  (Atlas.ch_messages request = None ∨ Atlas.ch_messages request = Some [] →
   Atlas.chat self request w
   = (Ok (PDict {[ "error" := PStr "No messages provided" ]}), w)) ∧
  (∀ messages,
     Atlas.ch_messages request = Some messages → messages ≠ [] →
     ∃ text e,
       llm_generate (w_engine w) (Atlas._format_messages messages)
         (Atlas.sampling_params self) (Atlas.lora_request self) = (text, e) ∧
       Atlas.chat self request w
       = (Ok (PDict
            {[ "id" := PStr "atlas-1";
               "object" := PStr "chat.completion";
               "model" := PStr "atlas-1";
               "choices" := PList
                 [PDict
                    {[ "index" := PInt 0;
                       "message" := PDict {[ "role" := PStr "assistant";
                                             "content" := PStr (py_strip text) ]};
                       "finish_reason" := PStr "stop" ]}] ]}),
          {| w_engine := e;
             w_calls := w_calls w ++
               [{| c_prompt := Atlas._format_messages messages;
                   c_params := Atlas.sampling_params self;
                   c_lora := Atlas.lora_request self |}] |})).
Proof.
  split.
  - unfold Atlas.chat. by intros [->| ->].
  - intros messages Hm Hne. unfold Atlas.chat. rewrite Hm.
    change (default [] (Some messages)) with messages.
    rewrite decide_False by done.
    destruct (llm_generate (w_engine w) (Atlas._format_messages messages)
                (Atlas.sampling_params self) (Atlas.lora_request self))
      as [text e] eqn:Hgen.
    exists text, e. split; [done|].
    unfold bind. by rewrite (generate_run _ _ _ _ _ Hgen).
Qed.


(** X6.  [parse_intent]: a request whose message is absent or empty gets
    the value with the one key [error], whatever its history, and the
    engine is not called. *)
Theorem parse_intent_validation
    (self : Atlas.AtlasModel) (request : Atlas.IntentRequest) (w : world) :
  Atlas.pi_message request = None ∨ Atlas.pi_message request = Some "" →
  Atlas.parse_intent self request w
  = (Ok (PDict {[ "error" := PStr "No message provided" ]}), w).
Proof. unfold Atlas.parse_intent. by intros [->| ->]. Qed.

Lemma object_group_opens (s : string) (m : Match) :
  re_search object_re s = Some m → ∃ t, m_group m = String lbrace t.
Proof.
  revert m. induction s as [|a s IH]; intros m; [done|].
  cbn [re_search]. rewrite match_at_object_re.
  assert (Hrec : shift_match <$> re_search object_re s = Some m →
                 ∃ t, m_group m = String lbrace t).
  { destruct (re_search object_re s) as [m'|]; [|done].
    intros [= <-]. apply (IH m' eq_refl). }
  destruct (decide (a = lbrace)) as [->|Ha]; [|done].
  destruct s as [|b s]; [done|].
  destruct (decide (b = rbrace)); [done|].
  destruct (str_find rbrace (String b s)) as [j|]; [|done].
  cbn [fmap option_fmap option_map]. intros [= <-]. by eexists.
Qed.

Lemma intent_result_dict (response : string) (d : gmap string pyval) :
  Atlas.intent_result response (PDict d)
  = Ok (PDict
      {[ "success" := PBool true;
         "origin" := default PNone (d !! "origin");
         "destination" := default PNone (d !! "destination");
         "intent" := default (PStr "search") (d !! "intent");
         "vehicle_type" := default PNone (d !! "vehicle_type");
         "cargo_type" := default PNone (d !! "cargo_type");
         "raw_response" := PStr response ]}).
Proof. reflexivity. Qed.

(** X7.  Under the contract of the decoder the object extractor raises
    nothing: it returns a dict with exactly the seven keys of an intent
    answer, [raw_response] is the response it was given, and [success] is
    true exactly when the scan found a span and the span decoded. *)
Theorem intent_answer_shape (response : string) :
  decoder_contract dec →
  ∃ r b,
    Atlas.parse_json_object response = Ok (PDict r) ∧
    dom r = intent_keys ∧
    r !! "raw_response" = Some (PStr response) ∧
    r !! "success" = Some (PBool b) ∧
    (b = true ↔
     ∃ span d, nonempty_brace_span response = Some span ∧
               json_loads span = Ok (PDict d)).
Proof.
  intros Hdec. pose proof (search_object_re response) as Hspan.
  unfold Atlas.parse_json_object.
  destruct (re_search object_re response) as [m|] eqn:Hm.
  - destruct (object_group_opens _ _ Hm) as [t Ht].
    cbn [fmap option_fmap option_map] in Hspan.
    specialize (Hdec (m_group m)).
    destruct (json_loads (m_group m)) as [v|e] eqn:Hv.
    + destruct Hdec as [_ Hdict]. destruct (Hdict t Ht) as [d ->].
      cbn [result_bind]. rewrite intent_result_dict.
      eexists _, true. split; [reflexivity|].
      split; [reflexivity|]. split; [reflexivity|]. split; [reflexivity|].
      split; [|done]. intros _. exists (m_group m), d. by rewrite <- Hspan.
    + subst e. eexists _, false. split; [reflexivity|].
      split; [reflexivity|]. split; [reflexivity|]. split; [reflexivity|].
      split; [done|]. intros (span & d & Hs & Hd).
      rewrite <- Hspan in Hs. injection Hs as <-. congruence.
  - eexists _, false. split; [reflexivity|].
    split; [reflexivity|]. split; [reflexivity|]. split; [reflexivity|].
    split; [done|]. intros (span & d & Hs & _).
    rewrite <- Hspan in Hs. done.
Qed.

(** X8.  When the span decodes to an object, each of the five fields is
    the object's, with [search] for a missing intent and null for any
    other missing field; a field that is present as null stays null, and
    the other fields of the object are not in the answer. *)
Theorem intent_fields_and_defaults
    (response span : string) (d : gmap string pyval) :
  nonempty_brace_span response = Some span →
  json_loads span = Ok (PDict d) →
  ∃ r,
    Atlas.parse_json_object response = Ok (PDict r) ∧
    r !! "intent" = Some (default (PStr "search") (d !! "intent")) ∧
    (∀ k, k ∈ ["origin"; "destination"; "vehicle_type"; "cargo_type"] →
       r !! k = Some (default PNone (d !! k))) ∧
    (∀ k, d !! k = Some PNone →
       k ∈ ["origin"; "destination"; "intent"; "vehicle_type"; "cargo_type"] →
       r !! k = Some PNone) ∧
    (∀ k, k ∉ intent_keys → r !! k = None).
Proof.
  intros Hspan Hd. rewrite <- search_object_re in Hspan.
  apply search_group in Hspan as (m & Hm & <-).
  unfold Atlas.parse_json_object. rewrite Hm, Hd. cbn [result_bind].
  rewrite intent_result_dict. eexists. split; [reflexivity|].
  split; [reflexivity|]. split; [|split].
  - intros k Hk. repeat (apply elem_of_cons in Hk as [->|Hk]; [reflexivity|]).
    by apply elem_of_nil in Hk.
  - intros k Hnull Hk.
    repeat (apply elem_of_cons in Hk as [->|Hk];
            [rewrite Hnull; reflexivity|]).
    by apply elem_of_nil in Hk.
  - intros k Hk. apply not_elem_of_dom.
    intros Hin. apply Hk. exact Hin.
Qed.

(** X9.  [load_model] and the calls that follow it agree on the adapter:
    the engine is built with LoRA enabled exactly when the directory of
    the adapter exists, and exactly then every call that [chat],
    [generate] and [parse_intent] make carries the adapter; the default
    sampling parameters are the same on both paths. *)
Theorem adapter_is_used_consistently
    (adapter_exists : bool) (prompt : string) (params : SamplingParams)
    (w : world) :
  let '(llm, self) := Atlas.load_model adapter_exists in
  Atlas.llm_enable_lora llm = (if adapter_exists then Some true else None) ∧
  Atlas.lora_request self
  = (if adapter_exists
     then Some {| lora_name := "atlas-1.4"; lora_int_id := 1;
                  lora_path := "/model/atlas-1.4-adapter" |}
     else None) ∧
  Atlas.sampling_params self = Atlas.default_sampling_params ∧
  ∃ text e,
    Atlas.llm_call self prompt params w
    = (Ok text,
       {| w_engine := e;
          w_calls := w_calls w ++
            [{| c_prompt := prompt; c_params := params;
                c_lora := Atlas.lora_request self |}] |}).
Proof.
  destruct adapter_exists; cbn [Atlas.load_model].
  - split; [done|]. split; [done|]. split; [done|].
    rewrite llm_call_run. unfold generate.
    destruct (llm_generate _ _ _ _) as [text e]. by eexists _, _.
  - split; [done|]. split; [done|]. split; [done|].
    rewrite llm_call_run. unfold generate.
    destruct (llm_generate _ _ _ _) as [text e]. by eexists _, _.
Qed.

End AtlasMore.

(** ** What the two scans select *)

Lemma str_take_cons (n : nat) (a : ascii) (s : string) :
  str_take (S n) (String a s) = String a (str_take n s).
Proof. reflexivity. Qed.

Lemma str_find_split (c : ascii) (s : string) (j : nat) :
  str_find c s = Some j →
  ∃ body post,
    s = body +:+ String c post ∧ String.length body = j ∧
    str_find c body = None ∧ str_take (S j) s = body +:+ String c "".
Proof.
  revert j. induction s as [|a s IH]; intros j; [done|].
  cbn [str_find]. destruct (decide (a = c)) as [->|Ha].
  - intros [= <-]. by exists "", s.
  - destruct (str_find c s) as [j'|]; [|done]. intros [= <-].
    destruct (IH j' eq_refl) as (body & post & -> & Hlen & Hno & Htake).
    exists (String a body), post. rewrite !str_app_cons.
    split; [done|]. split; [by cbn [String.length]; rewrite Hlen|].
    split.
    + cbn [str_find]. rewrite decide_False by done. by rewrite Hno.
    + by rewrite str_take_cons, Htake.
Qed.

Lemma str_rfind_None_find (c : ascii) (s : string) :
  str_rfind c s = None → str_find c s = None.
Proof.
  induction s as [|a s IH]; [done|]. cbn [str_rfind str_find].
  destruct (str_rfind c s); [done|].
  destruct (decide (a = c)); [done|]. intros _. by rewrite IH.
Qed.

Lemma str_rfind_split (c : ascii) (s : string) (j : nat) :
  str_rfind c s = Some j →
  ∃ inner post,
    s = inner +:+ String c post ∧ String.length inner = j ∧
    str_find c post = None ∧ str_take (S j) s = inner +:+ String c "".
Proof.
  revert j. induction s as [|a s IH]; intros j; [done|].
  cbn [str_rfind]. destruct (str_rfind c s) as [j'|] eqn:Ej.
  - intros [= <-].
    destruct (IH j' eq_refl) as (inner & post & -> & Hlen & Hno & Htake).
    exists (String a inner), post. rewrite !str_app_cons.
    split; [done|]. split; [by cbn [String.length]; rewrite Hlen|].
    split; [done|].
    by rewrite str_take_cons, Htake.
  - destruct (decide (a = c)) as [->|]; [|done]. intros [= <-].
    exists "", s. split; [done|]. split; [done|].
    split; [by apply str_rfind_None_find|]. done.
Qed.

(** X10.  What the array scan selects: the match starts at the first
    bracket of the text and ends at its last closing bracket, so no opening
    bracket comes before it and no closing bracket after it; everything in
    between, other arrays included, is inside the one span. *)
Theorem array_span_shape (text : string) (m : Match) :
  re_search array_re text = Some m →
  ∃ before inner after,
    text = before +:+ m_group m +:+ after ∧
    String.length before = m_start m ∧
    str_find lbracket before = None ∧
    str_find rbracket after = None ∧
    m_group m = String lbracket (inner +:+ String rbracket "").
Proof.
  revert m. induction text as [|a s IH]; intros m; [done|].
  cbn [re_search]. rewrite match_at_array_re.
  destruct (decide (a = lbracket)) as [->|Ha].
  - destruct (str_rfind rbracket s) as [j|] eqn:Ej;
      cbn [fmap option_fmap option_map].
    + destruct (str_rfind_split _ _ _ Ej) as (inner & post & Hs & _ & Hno & Htake).
      rewrite (str_take_cons (S j)), Htake. intros [= <-].
      exists "", inner, post. rewrite str_app_nil_l. cbn [m_group m_start].
      split; [|done].
      rewrite str_app_cons, str_app_assoc, str_app_cons, str_app_nil_l.
      by rewrite <- Hs.
    + pose proof (search_array_re s) as Hnone.
      rewrite (bracket_span_no_rbracket s Ej) in Hnone.
      by rewrite (search_none _ _ Hnone).
  - destruct (re_search array_re s) as [m'|]; [|done]. intros [= <-].
    destruct (IH m' eq_refl) as (before & inner & after & -> & Hlen & Hb & Hr & Hg).
    exists (String a before), inner, after. rewrite str_app_cons.
    split; [done|]. split; [by cbn; rewrite Hlen|].
    split; [|done]. cbn [str_find]. rewrite decide_False by done.
    by rewrite Hb.
Qed.

(** X11.  What the object scan selects: an opening brace, at least one
    character, and the first closing brace that follows; the span holds no
    closing brace but its last character, so of an object with an object
    inside only the part up to the inner closing brace is selected. *)
Theorem object_span_shape (text : string) (m : Match) :
  re_search object_re text = Some m →
  ∃ before body after,
    text = before +:+ m_group m +:+ after ∧
    String.length before = m_start m ∧
    m_group m = String lbrace (body +:+ String rbrace "") ∧
    body ≠ "" ∧
    str_find rbrace body = None.
Proof.
  revert m. induction text as [|a s IH]; intros m; [done|].
  cbn [re_search]. rewrite match_at_object_re.
  assert (Hrec : shift_match <$> re_search object_re s = Some m →
    ∃ before body after,
      String a s = before +:+ m_group m +:+ after ∧
      String.length before = m_start m ∧
      m_group m = String lbrace (body +:+ String rbrace "") ∧
      body ≠ "" ∧ str_find rbrace body = None).
  { destruct (re_search object_re s) as [m'|]; [|done]. intros [= <-].
    destruct (IH m' eq_refl) as (before & body & after & -> & Hlen & Hg & Hne & Hno).
    exists (String a before), body, after. rewrite str_app_cons.
    split; [done|]. split; [by cbn; rewrite Hlen|]. done. }
  destruct (decide (a = lbrace)) as [->|Ha]; [|done].
  destruct s as [|b s]; [done|].
  destruct (decide (b = rbrace)) as [->|Hb]; [done|].
  destruct (str_find rbrace (String b s)) as [j|] eqn:Ej; [|done].
  cbn [fmap option_fmap option_map].
  destruct (str_find_split _ _ _ Ej) as (body & post & Hs & _ & Hno & Htake).
  rewrite (str_take_cons (S j)), Htake. intros [= <-].
  exists "", body, post. rewrite str_app_nil_l. cbn [m_group m_start].
  split; [|split; [done|split; [done|split; [|done]]]].
  - rewrite str_app_cons, str_app_assoc, str_app_cons, str_app_nil_l.
    by rewrite <- Hs.
  - intros ->. rewrite str_app_nil_l in Hs. by injection Hs as ->.
Qed.

Lemma array_span_shape_witness :
  ∃ before inner after,
    "jobs: [1] and [2]." = before +:+ "[1] and [2]" +:+ after ∧
    String.length before = 6 ∧
    str_find lbracket before = None ∧
    str_find rbracket after = None ∧
    "[1] and [2]" = String lbracket (inner +:+ String rbracket "").
Proof.
  apply (array_span_shape "jobs: [1] and [2]."
           {| m_start := 6; m_group := "[1] and [2]" |}).
  vm_compute. reflexivity.
Defined.

Lemma object_span_shape_witness :
  ∃ before body after,
    "ok {a:{b:1}} done" = before +:+ "{a:{b:1}" +:+ after ∧
    String.length before = 3 ∧
    "{a:{b:1}" = String lbrace (body +:+ String rbrace "") ∧
    body ≠ "" ∧
    str_find rbrace body = None.
Proof.
  apply (object_span_shape "ok {a:{b:1}} done"
           {| m_start := 3; m_group := "{a:{b:1}" |}).
  vm_compute. reflexivity.
Defined.

(** ** More on the endpoints of hermes.py *)

Section HermesMore.
Context {dec : JsonDecoder} {eng : InferenceEngine}.

Lemma extracted_jobs_spec (text : string) :
  decoder_contract dec →
  Hermes.parse_json_array (py_strip text) = Ok (PList (extracted_jobs text)).
Proof.
  intros Hdec. unfold extracted_jobs.
  destruct (parse_json_array_list (py_strip text) Hdec) as [jobs ->]. done.
Qed.

Lemma for_each_batch_extracted (msgs : list string) :
  decoder_contract dec →
  ∀ (results : list pyval) (w : world),
    for_each msgs Hermes.batch_step results w
    = (Ok (results ++
           zip_with batch_entry msgs
             (extracted_jobs <$> (batch_completions msgs (w_engine w)).1)),
       {| w_engine := (batch_completions msgs (w_engine w)).2;
          w_calls := w_calls w ++ (hermes_call <$> msgs) |}).
Proof.
  intros Hdec. induction msgs as [|m msgs IH]; intros results w.
  - cbn. rewrite !app_nil_r. by destruct w.
  - cbn [batch_completions for_each].
    destruct (llm_generate (w_engine w) (hermes_prompt m)
                Hermes.sampling_params None) as [text e] eqn:Hgen.
    unfold bind at 1.
    rewrite (batch_step_run _ _ _ _ _ _ Hgen (extracted_jobs_spec text Hdec)).
    rewrite IH. cbn [w_engine w_calls].
    destruct (batch_completions msgs e) as [texts e2].
    cbn [zip_with fmap list_fmap fst snd]. by rewrite <- !app_assoc.
Qed.

(** [parse_batch] on a non-empty list, in closed form. *)
Lemma parse_batch_run (msgs : list string) (w : world) :
  decoder_contract dec →
  msgs ≠ [] →
  Hermes.parse_batch {| Hermes.pb_messages := Some msgs |} w
  = (Ok (PDict
       {[ "success" := PBool true;
          "results" := PList
            (zip_with batch_entry msgs
               (extracted_jobs <$> (batch_completions msgs (w_engine w)).1));
          "total_jobs" := PInt (Z.of_nat (sum_list
            (length <$> (extracted_jobs <$>
                           (batch_completions msgs (w_engine w)).1)))) ]}),
     {| w_engine := (batch_completions msgs (w_engine w)).2;
        w_calls := w_calls w ++ (hermes_call <$> msgs) |}).
Proof.
  intros Hdec Hne. unfold Hermes.parse_batch. cbn [Hermes.pb_messages].
  change (default [] (Some msgs)) with msgs.
  rewrite decide_False by done. unfold bind at 1.
  rewrite for_each_batch_extracted by done. cbn [app].
  unfold bind, lift, ret. rewrite gen_counts. cbn [result_bind].
  unfold py_sum. rewrite zip_with_snd_same_length.
  - by rewrite sum_counts.
  - by rewrite length_fmap, batch_completions_length.
Qed.

Lemma batch_completions_app (ms1 ms2 : list string) e :
  batch_completions (ms1 ++ ms2) e
  = ((batch_completions ms1 e).1
     ++ (batch_completions ms2 (batch_completions ms1 e).2).1,
     (batch_completions ms2 (batch_completions ms1 e).2).2).
Proof.
  revert e. induction ms1 as [|m ms1 IH]; intros e.
  - cbn. by destruct (batch_completions ms2 e).
  - cbn [app batch_completions].
    destruct (llm_generate e (hermes_prompt m) Hermes.sampling_params None)
      as [text e1].
    rewrite IH. destruct (batch_completions ms1 e1) as [texts1 e2].
    cbn [fst snd]. by destruct (batch_completions ms2 e2).
Qed.

(** X12.  [parse_batch]: a request whose list of messages is absent or
    empty gets the error value with an empty list of results, and the
    engine is not called. *)
Theorem parse_batch_validation (request : Hermes.BatchRequest) (w : world) :
  Hermes.pb_messages request = None ∨ Hermes.pb_messages request = Some [] →
  Hermes.parse_batch request w
  = (Ok (PDict {[ "error" := PStr "No messages provided";
                  "results" := PList [] ]}), w).
Proof. unfold Hermes.parse_batch. by intros [->| ->]. Qed.


(** X14.  A batch of one non-empty message is [parse_message] on that
    message: the same jobs, the same count as total, and the same call to
    the engine. *)
Theorem single_message_batch (m : string) (w : world) :
  decoder_contract dec →
  m ≠ "" →
  ∃ jobs w',
    Hermes.parse_message {| Hermes.pm_message := Some m |} w
    = (Ok (PDict {[ "success" := PBool true;
                    "jobs" := PList jobs;
                    "count" := PInt (Z.of_nat (length jobs)) ]}), w') ∧
    Hermes.parse_batch {| Hermes.pb_messages := Some [m] |} w
    = (Ok (PDict
         {[ "success" := PBool true;
            "results" := PList
              [PDict {[ "message" := PStr m;
                        "jobs" := PList jobs;
                        "count" := PInt (Z.of_nat (length jobs)) ]}];
            "total_jobs" := PInt (Z.of_nat (length jobs)) ]}), w').
Proof.
  intros Hdec Hne.
  destruct (llm_generate (w_engine w) (hermes_prompt m)
              Hermes.sampling_params None) as [text e] eqn:Hgen.
  exists (extracted_jobs text),
         {| w_engine := e; w_calls := w_calls w ++ [hermes_call m] |}.
  split.
  - unfold Hermes.parse_message. cbn [Hermes.pm_message].
    change (default "" (Some m)) with m. rewrite decide_False by done.
    unfold bind.
    by rewrite (parse_internal_run _ _ _ _ Hgen), extracted_jobs_spec.
  - rewrite parse_batch_run by done. cbn [batch_completions].
    rewrite Hgen. cbn [fst snd fmap list_fmap zip_with sum_list sum_list_with].
    unfold id. by rewrite Nat.add_0_r.
Qed.

(** X15.  Batches compose: the answer to a batch followed by another is
    the results of the first followed by the results of the second, run
    from where the first left the engine, and the total is the sum of the
    two totals. *)
Theorem parse_batch_concatenation (ms1 ms2 : list string) (w : world) :
  decoder_contract dec →
  ms1 ≠ [] →
  ms2 ≠ [] →
  ∃ rs1 rs2 n1 n2 w1 w2,
    Hermes.parse_batch {| Hermes.pb_messages := Some ms1 |} w
    = (Ok (PDict {[ "success" := PBool true; "results" := PList rs1;
                    "total_jobs" := PInt n1 ]}), w1) ∧
    Hermes.parse_batch {| Hermes.pb_messages := Some ms2 |} w1
    = (Ok (PDict {[ "success" := PBool true; "results" := PList rs2;
                    "total_jobs" := PInt n2 ]}), w2) ∧
    Hermes.parse_batch {| Hermes.pb_messages := Some (ms1 ++ ms2) |} w
    = (Ok (PDict {[ "success" := PBool true; "results" := PList (rs1 ++ rs2);
                    "total_jobs" := PInt (n1 + n2) ]}), w2).
Proof.
  intros Hdec H1 H2.
  assert (ms1 ++ ms2 ≠ []) as H12 by (by destruct ms1).
  do 6 eexists. split; [by apply parse_batch_run|].
  split; [by apply parse_batch_run|].
  rewrite parse_batch_run by done. cbn [w_engine w_calls].
  rewrite batch_completions_app. cbn [fst snd].
  rewrite !fmap_app, sum_list_with_app, Nat2Z.inj_add, <- !app_assoc.
  rewrite zip_with_app; [done|].
  by rewrite length_fmap, batch_completions_length.
Qed.

End HermesMore.

Lemma parse_batch_validation_witness :
  @Hermes.parse_batch ref_json scripted
    {| Hermes.pb_messages := Some [] |} (scripted_world [one_job])
  = (Ok (PDict {[ "error" := PStr "No messages provided";
                  "results" := PList [] ]}), scripted_world [one_job]).
Proof.
  apply (@parse_batch_validation ref_json scripted). by right.
Defined.


Lemma single_message_batch_witness :
  ∃ jobs w',
    @Hermes.parse_message ref_json scripted
      {| Hermes.pm_message := Some "A--B TIR" |} (scripted_world [one_job])
    = (Ok (PDict {[ "success" := PBool true;
                    "jobs" := PList jobs;
                    "count" := PInt (Z.of_nat (length jobs)) ]}), w') ∧
    @Hermes.parse_batch ref_json scripted
      {| Hermes.pb_messages := Some ["A--B TIR"] |} (scripted_world [one_job])
    = (Ok (PDict
         {[ "success" := PBool true;
            "results" := PList
              [PDict {[ "message" := PStr "A--B TIR";
                        "jobs" := PList jobs;
                        "count" := PInt (Z.of_nat (length jobs)) ]}];
            "total_jobs" := PInt (Z.of_nat (length jobs)) ]}), w').
Proof.
  apply (@single_message_batch ref_json scripted "A--B TIR"
           (scripted_world [one_job]) ref_json_contract).
  discriminate.
Defined.

Lemma parse_batch_concatenation_witness :
  ∃ rs1 rs2 n1 n2 w1 w2,
    @Hermes.parse_batch ref_json scripted
      {| Hermes.pb_messages := Some ["A--B TIR"] |}
      (scripted_world [one_job; "Yok."])
    = (Ok (PDict {[ "success" := PBool true; "results" := PList rs1;
                    "total_jobs" := PInt n1 ]}), w1) ∧
    @Hermes.parse_batch ref_json scripted
      {| Hermes.pb_messages := Some [""] |} w1
    = (Ok (PDict {[ "success" := PBool true; "results" := PList rs2;
                    "total_jobs" := PInt n2 ]}), w2) ∧
    @Hermes.parse_batch ref_json scripted
      {| Hermes.pb_messages := Some (["A--B TIR"] ++ [""]) |}
      (scripted_world [one_job; "Yok."])
    = (Ok (PDict {[ "success" := PBool true; "results" := PList (rs1 ++ rs2);
                    "total_jobs" := PInt (n1 + n2) ]}), w2).
Proof.
  apply (@parse_batch_concatenation ref_json scripted ["A--B TIR"] [""]
           (scripted_world [one_job; "Yok."]) ref_json_contract);
    discriminate.
Defined.

(** *** The endpoints of serve.py on concrete requests *)

Lemma chat_validation_witness :
  (@Atlas.chat scripted plain_model {| Atlas.ch_messages := Some [] |}
     (scripted_world [" Merhaba "])
   = (Ok (PDict {[ "error" := PStr "No messages provided" ]}),
      scripted_world [" Merhaba "])) ∧
  ∃ text e,
    @llm_generate scripted (w_engine (scripted_world [" Merhaba "]))
      (Atlas._format_messages [mk_msg "user" "selam"])
      (Atlas.sampling_params plain_model) (Atlas.lora_request plain_model)
    = (text, e) ∧
    @Atlas.chat scripted plain_model
      {| Atlas.ch_messages := Some [mk_msg "user" "selam"] |}
      (scripted_world [" Merhaba "])
    = (Ok (PDict
         {[ "id" := PStr "atlas-1";
            "object" := PStr "chat.completion";
            "model" := PStr "atlas-1";
            "choices" := PList
              [PDict
                 {[ "index" := PInt 0;
                    "message" := PDict {[ "role" := PStr "assistant";
                                          "content" := PStr (py_strip text) ]};
                    "finish_reason" := PStr "stop" ]}] ]}),
       {| w_engine := e;
          w_calls := w_calls (scripted_world [" Merhaba "]) ++
            [{| c_prompt := Atlas._format_messages [mk_msg "user" "selam"];
                c_params := Atlas.sampling_params plain_model;
                c_lora := Atlas.lora_request plain_model |}] |}).
Proof.
  split.
  - apply (proj1 (@chat_validation scripted plain_model
                    {| Atlas.ch_messages := Some [] |}
                    (scripted_world [" Merhaba "]))).
    by right.
  - apply (proj2 (@chat_validation scripted plain_model
                    {| Atlas.ch_messages := Some [mk_msg "user" "selam"] |}
                    (scripted_world [" Merhaba "])) [mk_msg "user" "selam"]).
    + reflexivity.
    + discriminate.
Defined.

Lemma parse_intent_validation_witness :
  @Atlas.parse_intent ref_json scripted plain_model
    {| Atlas.pi_message := Some ""; Atlas.pi_history := Some six_turns |}
    (scripted_world ["{}"])
  = (Ok (PDict {[ "error" := PStr "No message provided" ]}),
     scripted_world ["{}"]).
Proof.
  apply (@parse_intent_validation ref_json scripted plain_model). by right.
Defined.

Lemma intent_answer_shape_witness :
  ∃ r b,
    @Atlas.parse_json_object ref_json search_intent = Ok (PDict r) ∧
    dom r = intent_keys ∧
    r !! "raw_response" = Some (PStr search_intent) ∧
    r !! "success" = Some (PBool b) ∧
    (b = true ↔
     ∃ span d, nonempty_brace_span search_intent = Some span ∧
               @json_loads ref_json span = Ok (PDict d)).
Proof.
  apply (@intent_answer_shape ref_json search_intent ref_json_contract).
Defined.

Lemma intent_fields_and_defaults_witness :
  ∃ r,
    @Atlas.parse_json_object ref_json null_origin = Ok (PDict r) ∧
    r !! "intent"
    = Some (default (PStr "search")
              (({[ "origin" := PNone; "note" := PInt 1 ]}
                : gmap string pyval) !! "intent")) ∧
    (∀ k, k ∈ ["origin"; "destination"; "vehicle_type"; "cargo_type"] →
       r !! k
       = Some (default PNone
                 (({[ "origin" := PNone; "note" := PInt 1 ]}
                   : gmap string pyval) !! k))) ∧
    (∀ k, ({[ "origin" := PNone; "note" := PInt 1 ]}
           : gmap string pyval) !! k = Some PNone →
       k ∈ ["origin"; "destination"; "intent"; "vehicle_type"; "cargo_type"] →
       r !! k = Some PNone) ∧
    (∀ k, k ∉ intent_keys → r !! k = None).
Proof.
  apply (@intent_fields_and_defaults ref_json null_origin null_origin
           {[ "origin" := PNone; "note" := PInt 1 ]}).
  - vm_compute. reflexivity.
  - vm_compute. reflexivity.
Defined.

(** The answer for a decoded object that has no intent and a null origin. *)
Example null_origin_answer :
  @Atlas.parse_json_object ref_json null_origin
  = Ok (PDict {[ "success" := PBool true;
                 "intent" := PStr "search";
                 "origin" := PNone;
                 "destination" := PNone;
                 "vehicle_type" := PNone;
                 "cargo_type" := PNone;
                 "raw_response" := PStr null_origin ]}).
Proof. vm_compute. reflexivity. Qed.

(** ** upload_model.py *)

Lemma fold_upload_step (fs : list Upload.file) (log : list Upload.event) :
  fold_left Upload.upload_step fs log
  = log ++ concat ((λ f : Upload.file,
      [Upload.Makedirs (Upload.dirname (Upload.path_join Upload.dest_dir f.1));
       Upload.Write (Upload.path_join Upload.dest_dir f.1) f.2;
       Upload.Print ("Uploaded: " +:+ f.1)]) <$> fs).
Proof.
  revert log. induction fs as [|[name content] fs IH]; intros log.
  - cbn. by rewrite app_nil_r.
  - cbn [fold_left fmap list_fmap concat]. rewrite IH.
    unfold Upload.upload_step. cbn [fst snd]. by rewrite <- app_assoc.
Qed.

Lemma path_join_dest (filename : string) :
  Upload.path_join Upload.dest_dir filename = volume_path filename.
Proof.
  unfold Upload.path_join, volume_path.
  by destruct (Upload.starts_with_slash filename).
Qed.

Lemma writes_app (l1 l2 : list Upload.event) :
  writes (l1 ++ l2) = writes l1 ++ writes l2.
Proof. apply omap_app. Qed.

Lemma commits_app (l1 l2 : list Upload.event) :
  commits (l1 ++ l2) = commits l1 + commits l2.
Proof. unfold commits. by rewrite omap_app, length_app. Qed.

Lemma upload_steps_effects (fs : list Upload.file) :
  writes (concat ((λ f : Upload.file,
      [Upload.Makedirs (Upload.dirname (Upload.path_join Upload.dest_dir f.1));
       Upload.Write (Upload.path_join Upload.dest_dir f.1) f.2;
       Upload.Print ("Uploaded: " +:+ f.1)]) <$> fs))
  = (λ f : Upload.file, (volume_path f.1, f.2)) <$> fs ∧
  commits (concat ((λ f : Upload.file,
      [Upload.Makedirs (Upload.dirname (Upload.path_join Upload.dest_dir f.1));
       Upload.Write (Upload.path_join Upload.dest_dir f.1) f.2;
       Upload.Print ("Uploaded: " +:+ f.1)]) <$> fs)) = 0.
Proof.
  induction fs as [|f fs [IHw IHc]]; [done|].
  cbn [fmap list_fmap concat]. rewrite writes_app, commits_app, IHw, IHc.
  split; [|done]. cbn. by rewrite path_join_dest.
Qed.

(** X16.  [upload_to_volume] writes every file it is given, in order, and
    commits the volume once, after the last write.  A name that does not
    begin with a slash is written under [/model/atlas-1/]; a name that
    begins with one is written to that very path, outside the directory of
    the model. *)
Theorem upload_writes_then_commits (local_files : list Upload.file) :
  writes (Upload.upload_to_volume local_files)
  = (λ f : Upload.file, (volume_path f.1, f.2)) <$> local_files ∧
  commits (Upload.upload_to_volume local_files) = 1 ∧
  ∃ log line,
    Upload.upload_to_volume local_files
    = log ++ [Upload.Commit; Upload.Print line] ∧
    commits log = 0 ∧
    writes log = writes (Upload.upload_to_volume local_files).
Proof.
  unfold Upload.upload_to_volume. cbv zeta. rewrite fold_upload_step.
  destruct (upload_steps_effects local_files) as [Hw Hc].
  rewrite !writes_app, !commits_app, Hw, Hc.
  split; [by rewrite app_nil_r|]. split; [done|].
  eexists _, _. split; [reflexivity|].
  rewrite commits_app, writes_app, Hw, Hc. split; [done|].
  by rewrite app_nil_r.
Qed.

Lemma fold_batch_step (files : list Upload.file) (starts : list nat)
    (log : list Upload.event) :
  remote_calls (fold_left (Upload.batch_step files) starts log)
  = remote_calls log ++
    ((λ i, Upload.py_slice i (i + Upload.BATCH_SIZE) files) <$> starts).
Proof.
  revert log. induction starts as [|i starts IH]; intros log.
  - cbn. by rewrite app_nil_r.
  - cbn [fold_left fmap list_fmap]. rewrite IH.
    unfold Upload.batch_step, remote_calls. rewrite omap_app.
    cbn. by rewrite <- app_assoc.
Qed.

Lemma remote_calls_main (files : list Upload.file) :
  remote_calls (Upload.main_upload files)
  = (λ i, Upload.py_slice i (i + Upload.BATCH_SIZE) files)
    <$> Upload.py_range (length files) 0 (length files) Upload.BATCH_SIZE.
Proof.
  unfold Upload.main_upload. cbv zeta.
  unfold remote_calls at 1. rewrite omap_app.
  fold (remote_calls (fold_left (Upload.batch_step files)
    (Upload.py_range (length files) 0 (length files) Upload.BATCH_SIZE)
    [Upload.Print (nl +:+ "Uploading " +:+ pretty (length files) +:+ " files...")])).
  rewrite fold_batch_step. cbn. by rewrite app_nil_r.
Qed.

Lemma range_batches (files : list Upload.file) (fuel : nat) :
  ∀ start, length files - start ≤ fuel →
    let bs := (λ i, Upload.py_slice i (i + Upload.BATCH_SIZE) files)
              <$> Upload.py_range fuel start (length files) Upload.BATCH_SIZE in
    concat bs = drop start files ∧
    Forall (λ b, 1 ≤ length b ≤ Upload.BATCH_SIZE) bs ∧
    (length files - start ≤ 5 * length bs < length files - start + 5) ∧
    (∀ k b, bs !! k = Some b → S k < length bs →
            length b = Upload.BATCH_SIZE).
Proof.
  unfold Upload.BATCH_SIZE.
  induction fuel as [|fuel IH]; intros start Hfuel; cbn [Upload.py_range].
  - cbn. rewrite drop_ge by lia. repeat split; try done; lia.
  - destruct (decide (start < length files)) as [Hlt|Hge].
    + cbn [fmap list_fmap concat length].
      destruct (IH (start + 5)) as (Hcat & Hall & Hcount & Hfull); [lia|].
      set (bs' := (λ i, Upload.py_slice i (i + 5) files)
                  <$> Upload.py_range fuel (start + 5) (length files) 5) in *.
      unfold Upload.py_slice.
      replace (start + 5 - start) with 5 by lia.
      assert (length (take 5 (drop start files)) = 5 `min` (length files - start))
        as Hlen by (by rewrite length_take, length_drop).
      split; [|split; [|split]].
      * rewrite Hcat, <- drop_drop. apply take_drop.
      * constructor; [lia|done].
      * lia.
      * intros [|k] b Hb Hk; cbn in Hb.
        -- injection Hb as <-. lia.
        -- apply (Hfull k b Hb). lia.
    + cbn. rewrite drop_ge by lia. repeat split; try done; lia.
Qed.

(** X17.  The batches [main] sends to the volume: put end to end they are
    the list of files, in order; every batch holds between one and five
    files, and every batch but the last exactly five; there are
    (n + 4) / 5 of them for n files, none for no file. *)
Theorem upload_batches_partition (files : list Upload.file) :
  let bs := remote_calls (Upload.main_upload files) in
  concat bs = files ∧
  Forall (λ b, 1 ≤ length b ≤ Upload.BATCH_SIZE) bs ∧
  length bs = (length files + 4) / 5 ∧
  (∀ k b, bs !! k = Some b → S k < length bs → length b = Upload.BATCH_SIZE).
Proof.
  cbv zeta. rewrite remote_calls_main.
  destruct (range_batches files (length files) 0) as (Hcat & Hall & Hcount & Hfull);
    [lia|].
  split; [done|]. split; [done|]. split; [|done].
  apply (Nat.div_unique _ 5 _
           (length files + 4
            - 5 * length ((λ i, Upload.py_slice i (i + Upload.BATCH_SIZE) files)
                <$> Upload.py_range (length files) 0 (length files)
                      Upload.BATCH_SIZE))); lia.
Qed.

Lemma concat_fmap_fmap {A B} (g : A → B) (ls : list (list A)) :
  concat ((λ l : list A, g <$> l) <$> ls) = g <$> concat ls.
Proof.
  induction ls as [|l ls IH]; [done|]. cbn. by rewrite IH, fmap_app.
Qed.

Lemma sum_list_ones {A} (l : list A) :
  sum_list ((λ _, 1) <$> l) = length l.
Proof.
  induction l as [|x l IH]; [done|].
  cbn [fmap list_fmap sum_list sum_list_with length]. by rewrite IH.
Qed.

(** X18.  Uploading in batches writes what uploading at once would write:
    the writes of the remote calls of [main], one call after the other,
    are the writes of a single [upload_to_volume] on all the files, in the
    same order; the volume is committed once per batch. *)
Theorem batching_preserves_writes (files : list Upload.file) :
  concat ((λ b, writes (Upload.upload_to_volume b))
          <$> remote_calls (Upload.main_upload files))
  = writes (Upload.upload_to_volume files) ∧
  sum_list ((λ b, commits (Upload.upload_to_volume b))
            <$> remote_calls (Upload.main_upload files))
  = length (remote_calls (Upload.main_upload files)).
Proof.
  assert (Hw : ∀ fs, writes (Upload.upload_to_volume fs)
                     = (λ f : Upload.file, (volume_path f.1, f.2)) <$> fs).
  { intros fs. unfold Upload.upload_to_volume. cbv zeta.
    rewrite fold_upload_step, !writes_app.
    destruct (upload_steps_effects fs) as [-> _]. by rewrite app_nil_r. }
  assert (Hc : ∀ fs, commits (Upload.upload_to_volume fs) = 1).
  { intros fs. unfold Upload.upload_to_volume. cbv zeta.
    rewrite fold_upload_step, !commits_app.
    by destruct (upload_steps_effects fs) as [_ ->]. }
  split.
  - rewrite Hw.
    rewrite (list_fmap_ext _
               (λ b : list Upload.file,
                  (λ f : Upload.file, (volume_path f.1, f.2)) <$> b)
               (remote_calls (Upload.main_upload files))) by (intros; apply Hw).
    rewrite concat_fmap_fmap. f_equal.
    rewrite remote_calls_main.
    by destruct (range_batches files (length files) 0) as (-> & _); [lia|].
  - rewrite (list_fmap_ext _ (λ _, 1)
               (remote_calls (Upload.main_upload files))) by (intros; apply Hc).
    apply sum_list_ones.
Qed.

